(** * GeoCashV2: heading and navigation arithmetic

    A shallow embedding of the numeric code of the two screens
    [app/(tabs)/transponderCompass.tsx] and
    [app/(tabs)/transponderWaypoint.tsx].

    The main embedding takes JavaScript numbers as real numbers: rounding,
    overflow and signed zeros are not represented, and [Math.sqrt] of a
    negative number, which gives [NaN], is modelled with [option] ([None]
    is [NaN]).  Where rounding changes what holds (a rounded sum that
    reaches the end of a range, a distance that is not a number), the
    theorems state what holds of the rounded code as well; equalities
    between computed values are those of exact arithmetic.

    Module [Binary64] embeds the steps where rounding decides the outcome
    in binary64 itself, with the kernel's floating-point numbers: the
    conditional add of the listeners and the haversine term.  There the
    calls of [Math.atan2], [Math.sin] and [Math.cos] are not modelled: a
    step takes their results as arguments. *)

From Stdlib Require Import Ascii String DecimalString.
From Stdlib Require Import Reals Lra Lia ZArith List.
From Stdlib Require PrimFloat.
Import ListNotations.

Open Scope R_scope.

(** ** The [Math] functions and operators the code uses *)

Module JS.

(** [Math.atan2(y, x)]: the angle of the point (x, y), in (-PI, PI],
    with [atan2(0, 0) = 0]. *)
Definition atan2 (y x : R) : R :=
  if Rlt_dec 0 x then atan (y / x)
  else if Rlt_dec x 0 then
    (if Rlt_dec y 0 then atan (y / x) - PI else atan (y / x) + PI)
  else if Rlt_dec 0 y then PI / 2
  else if Rlt_dec y 0 then - (PI / 2)
  else 0.

(** [Math.sqrt(x)]: [NaN] below zero. *)
Definition sqrt (x : R) : option R :=
  if Rlt_dec x 0 then None else Some (R_sqrt.sqrt x).

(** Rounding toward zero, as the [%] operator does on its quotient. *)
Definition trunc (r : R) : Z :=
  if Rlt_dec r 0 then (- Int_part (- r))%Z else Int_part r.

(** [x % m]: the remainder has the sign of the dividend. *)
Definition rem (x m : R) : R := x - m * IZR (trunc (x / m)).

(** [Math.round(x)]: the nearest integer, the larger one on a tie. *)
Definition round (x : R) : Z := Int_part (x + 1 / 2).

(** The string of an integer-valued number, as a template literal gives
    it: its decimal digits (numbers below 10^21 in magnitude). *)
Definition numberToString (n : Z) : string :=
  NilZero.string_of_int (Z.to_int n).

Fixpoint zeros (n : nat) : string :=
  match n with
  | O => EmptyString
  | S n' => String "0"%char (zeros n')
  end.

(** [x.toFixed(f)] for [x] below 10^21 in magnitude: the sign, then the
    integer [n] nearest to [x * 10^f] (the larger one on a tie), padded
    with zeros to [f + 1] digits, with a point before the last [f]. *)
Definition toFixed (x : R) (f : nat) : string :=
  let s := if Rlt_dec x 0 then "-"%string else EmptyString in
  let n := Int_part (Rabs x * 10 ^ f + 1 / 2) in
  let m := numberToString n in
  match f with
  | O => (s ++ m)%string
  | S _ =>
      let m := (zeros (f + 1 - String.length m) ++ m)%string in
      let k := String.length m in
      (s ++ substring 0 (k - f) m ++ "." ++ substring (k - f) f m)%string
  end.

End JS.

(** ** Angle steps written inline in the listeners *)

(** [if (angle < 0) { angle += 360; }]
    (transponderCompass.tsx 26-28 and 71-73, transponderWaypoint.tsx
    143-145). *)
Definition normalize360 (angle : R) : R :=
  if Rlt_dec angle 0 then angle + 360 else angle.

(** [let arrowDirection = bearing - compassHeading;
     if (arrowDirection > 180) arrowDirection -= 360;
     else if (arrowDirection < -180) arrowDirection += 360;]
    (transponderWaypoint.tsx 177-184). *)
Definition shortestDelta (bearing compassHeading : R) : R :=
  let arrowDirection := bearing - compassHeading in
  if Rlt_dec 180 arrowDirection then arrowDirection - 360
  else if Rlt_dec arrowDirection (-180) then arrowDirection + 360
  else arrowDirection.

(** [{ x, y, z }], a sensor reading. *)
Record SensorData : Type := mkSensorData { sx : R; sy : R; sz : R }.

(** ** transponderCompass.tsx *)

Module TransponderCompass.

(** The component's [useState] cells. *)
Record State : Type := mkState {
  magnetometerData : SensorData;
  accelerometerData : SensorData;
  heading : R;
  isCalibrated : bool
}.

(** [useState] initial values. *)
Definition initial : State :=
  mkState (mkSensorData 0 0 0) (mkSensorData 0 0 0) 0 false.

(** [Math.atan2(-data.x, data.y) * (180 / Math.PI)], then the
    normalization (lines 23-28). *)
Definition magneticAngle (data : SensorData) : R :=
  normalize360 (JS.atan2 (- sx data) (sy data) * (180 / PI)).

(** The magnetometer listener (lines 17-31). *)
Definition onMagnetometer (st : State) (data : SensorData) : State :=
  mkState data (accelerometerData st) (magneticAngle data) (isCalibrated st).

(** The accelerometer listener (lines 35-37). *)
Definition onAccelerometer (st : State) (data : SensorData) : State :=
  mkState (magnetometerData st) data (heading st) (isCalibrated st).

(** Lines 56-57. *)
Definition pitch (acc : SensorData) : R :=
  JS.atan2 (sy acc) (sz acc) * (180 / PI).

Definition roll (acc : SensorData) : R :=
  JS.atan2 (sx acc) (sz acc) * (180 / PI).

(** Lines 60-67: the tilt-compensated magnetometer values. *)
Definition magX (acc mag : SensorData) : R :=
  let cosPitch := cos (pitch acc * PI / 180) in
  let sinPitch := sin (pitch acc * PI / 180) in
  sx mag * cosPitch + sz mag * sinPitch.

Definition magY (acc mag : SensorData) : R :=
  let cosRoll := cos (roll acc * PI / 180) in
  let sinRoll := sin (roll acc * PI / 180) in
  let cosPitch := cos (pitch acc * PI / 180) in
  let sinPitch := sin (pitch acc * PI / 180) in
  sx mag * sinRoll * sinPitch + sy mag * cosRoll - sz mag * sinRoll * cosPitch.

(** Lines 70-73. *)
Definition compensatedHeading (acc mag : SensorData) : R :=
  normalize360 (JS.atan2 (- magX acc mag) (magY acc mag) * (180 / PI)).

(** Line 76. *)
Definition compassRotation (st : State) : R :=
  - compensatedHeading (accelerometerData st) (magnetometerData st).

(** Lines 40-42: [isAvailableAsync().then(setIsCalibrated)]. *)
Definition onAvailability (st : State) (available : bool) : State :=
  mkState (magnetometerData st) (accelerometerData st) (heading st) available.

(** What the effect's subscriptions deliver. *)
Inductive Event : Type :=
| MagnetometerSample (data : SensorData)
| AccelerometerSample (data : SensorData)
| Availability (available : bool).

Definition step (st : State) (ev : Event) : State :=
  match ev with
  | MagnetometerSample data => onMagnetometer st data
  | AccelerometerSample data => onAccelerometer st data
  | Availability available => onAvailability st available
  end.

(** The state after a sequence of deliveries, oldest first. *)
Definition run (st : State) (evs : list Event) : State :=
  fold_left step evs st.

End TransponderCompass.

(** ** transponderWaypoint.tsx *)

Module GPSDirectionalArrow.

(** [{ latitude, longitude }] in degrees. *)
Record Coords : Type := mkCoords { latitude : R; longitude : R }.

(** What [calculateNavigationData] returns.  [distance] is [None] when
    the JavaScript value is [NaN]. *)
Record NavigationData : Type := mkNavigationData {
  distance : option R;
  bearing : R
}.

(** Line 11. *)
Definition targetLocation : Coords := mkCoords 37.7749 (-122.4194).

(** Line 31: [const R = 6371e3]. *)
Definition earthRadius : R := 6371000.

(** Lines 38-39. *)
Definition haversine_a (fromLocation toLocation : Coords) : R :=
  let phi1 := latitude fromLocation * PI / 180 in
  let phi2 := latitude toLocation * PI / 180 in
  let dphi := (latitude toLocation - latitude fromLocation) * PI / 180 in
  let dlam := (longitude toLocation - longitude fromLocation) * PI / 180 in
  sin (dphi / 2) * sin (dphi / 2) +
  cos phi1 * cos phi2 * sin (dlam / 2) * sin (dlam / 2).

(** Lines 40-41. *)
Definition calculatedDistance (fromLocation toLocation : Coords) : option R :=
  let a := haversine_a fromLocation toLocation in
  match JS.sqrt a, JS.sqrt (1 - a) with
  | Some u, Some v => Some (earthRadius * (2 * JS.atan2 u v))
  | _, _ => None
  end.

(** Lines 44-48. *)
Definition calculatedBearing (fromLocation toLocation : Coords) : R :=
  let phi1 := latitude fromLocation * PI / 180 in
  let phi2 := latitude toLocation * PI / 180 in
  let dlam := (longitude toLocation - longitude fromLocation) * PI / 180 in
  let y := sin dlam * cos phi2 in
  let x := cos phi1 * sin phi2 - sin phi1 * cos phi2 * cos dlam in
  let theta := JS.atan2 y x in
  JS.rem (theta * 180 / PI + 360) 360.

(** Lines 30-51. *)
Definition calculateNavigationData (fromLocation toLocation : Coords)
  : NavigationData :=
  mkNavigationData (calculatedDistance fromLocation toLocation)
                   (calculatedBearing fromLocation toLocation).

(** The heading event of [Location.watchHeadingAsync]. *)
Record Heading : Type := mkHeading { trueHeading : R; magHeading : R }.

(** The component's [useState] cells that the numeric code touches. *)
Record State : Type := mkState {
  currentLocation : option Coords;
  compassHeading : R;
  stBearing : R;
  stDistance : option R;
  loading : bool
}.

(** [useState] initial values (lines 16-21). *)
Definition initial : State := mkState None 0 0 (Some 0) true.

(** Line 119:
    [heading.trueHeading !== -1 ? heading.trueHeading : heading.magHeading]. *)
Definition headingValue (heading : Heading) : R :=
  if Req_dec_T (trueHeading heading) (-1) then magHeading heading
  else trueHeading heading.

(** The heading callback (lines 117-121). *)
Definition onHeading (st : State) (heading : Heading) : State :=
  mkState (currentLocation st) (headingValue heading) (stBearing st)
          (stDistance st) (loading st).

(** The location callback (lines 101-112). *)
Definition onLocation (st : State) (coords : Coords) : State :=
  let nav := calculateNavigationData coords targetLocation in
  mkState (Some coords) (compassHeading st) (bearing nav) (distance nav) false.

(** Lines 142-145. *)
Definition magneticHeading (x y : R) : R :=
  normalize360 (JS.atan2 (- x) y * (180 / PI)).

(** The fallback magnetometer listener (lines 140-148). *)
Definition onMagnetometer (st : State) (data : SensorData) : State :=
  mkState (currentLocation st) (magneticHeading (sx data) (sy data))
          (stBearing st) (stDistance st) (loading st).

(** Lines 175-184: the rotation handed to the animation, when there is
    one. *)
Definition arrowDirection (st : State) : option R :=
  match currentLocation st with
  | Some _ =>
      if loading st then None
      else Some (shortestDelta (stBearing st) (compassHeading st))
  | None => None
  end.

(** The range of a geographic position: latitude in [-90,90], longitude
    in [-180,180].  The code has no such test; the predicate is only used
    to state properties. *)
Definition validCoords (p : Coords) : Prop :=
  -90 <= latitude p <= 90 /\ -180 <= longitude p <= 180.

(** The same position with its longitude written one whole turn further
    east; used to state that the computation wraps longitudes. *)
Definition turnLongitude (p : Coords) : Coords :=
  mkCoords (latitude p) (longitude p + 360).

(** Lines 194-198.  [None] is [NaN]: both comparisons are false and the
    last branch prints it. *)
Definition formatDistance (dist : option R) : string :=
  match dist with
  | None => "NaNkm"%string
  | Some d =>
      if Rlt_dec d 1000 then (JS.numberToString (JS.round d) ++ "m")%string
      else if Rlt_dec d 10000 then (JS.toFixed (d / 1000) 1 ++ "km")%string
      else (JS.numberToString (JS.round (d / 1000)) ++ "km")%string
  end.

(** Lines 200-203. *)
Definition formatCoordinate (coord : R) (isLongitude : bool) : string :=
  let direction :=
    if isLongitude
    then (if Rle_dec 0 coord then "E" else "W")%string
    else (if Rle_dec 0 coord then "N" else "S")%string in
  (JS.toFixed (Rabs coord) 4 ++ "°" ++ direction)%string.

(** The outcome of an awaited call of the platform: the value it resolved
    to, or the message of the error it threw. *)
Inductive Outcome (A : Type) : Type :=
| Resolved (value : A)
| Rejected (message : string).

Arguments Resolved {A} value.
Arguments Rejected {A} message.

(** What the platform answers to the calls of the start-up sequence. *)
Record Platform : Type := mkPlatform {
  hasServicesEnabledAsync : Outcome bool;
  requestForegroundPermissionsAsync : Outcome string;
  magnetometerRequestPermissionsAsync : Outcome unit;
  watchPositionAsync : Outcome unit;
  watchHeadingAsync : Outcome unit;
  magnetometerIsAvailableAsync : Outcome bool
}.

(** What the start-up sequence leaves behind: the [error] cell, whether
    [setLoading(false)] was called, the titles of the alerts shown, which
    of the three subscription refs are set, and the magnetometer update
    interval if it was set. *)
Record Setup : Type := mkSetup {
  error : option string;
  loadingCleared : bool;
  alerts : list string;
  locationSubscription : bool;
  headingSubscription : bool;
  magnetometerSubscription : bool;
  magnetometerInterval : option Z
}.

Definition noSetup : Setup := mkSetup None false [] false false false None.

(** The [catch] of [requestPermissions] (lines 85-89). *)
Definition permissionFailure (shown : list string) (message : string)
  : bool * Setup :=
  (false, mkSetup (Some message) true shown false false false None).

(** Lines 53-90. *)
Definition requestPermissions (pf : Platform) : bool * Setup :=
  match hasServicesEnabledAsync pf with
  | Rejected message => permissionFailure [] message
  | Resolved false =>
      permissionFailure ["Location Services Disabled"%string]
                        "Location services are disabled"
  | Resolved true =>
      match requestForegroundPermissionsAsync pf with
      | Rejected message => permissionFailure [] message
      | Resolved status =>
          if String.eqb status "granted"
          then
            match magnetometerRequestPermissionsAsync pf with
            | Resolved _ => (true, noSetup)
            | Rejected _ => (true, noSetup)
            end
          else permissionFailure ["Permission Denied"%string]
                                 "Location permission denied"
      end
  end.

(** Lines 134-153. *)
Definition startMagnetometerFallback (pf : Platform) (su : Setup) : Setup :=
  match magnetometerIsAvailableAsync pf with
  | Resolved true =>
      mkSetup (error su) (loadingCleared su) (alerts su)
              (locationSubscription su) (headingSubscription su) true (Some 200%Z)
  | Resolved false => su
  | Rejected _ => su
  end.

(** Lines 92-132. *)
Definition startLocationTracking (pf : Platform) (su : Setup) : Setup :=
  match watchPositionAsync pf with
  | Rejected message =>
      mkSetup (Some ("Failed to start location tracking: " ++ message)%string)
              true (alerts su) (locationSubscription su)
              (headingSubscription su) (magnetometerSubscription su)
              (magnetometerInterval su)
  | Resolved _ =>
      let su1 := mkSetup (error su) (loadingCleared su) (alerts su) true
                         (headingSubscription su) (magnetometerSubscription su)
                         (magnetometerInterval su) in
      match watchHeadingAsync pf with
      | Resolved _ =>
          mkSetup (error su1) (loadingCleared su1) (alerts su1)
                  (locationSubscription su1) true
                  (magnetometerSubscription su1) (magnetometerInterval su1)
      | Rejected _ => startMagnetometerFallback pf su1
      end
  end.

(** Lines 156-163: the effect's [initialize]. *)
Definition initialize (pf : Platform) : Setup :=
  let (hasPermissions, su) := requestPermissions pf in
  if hasPermissions then startLocationTracking pf su else su.

(** Which of the three screens the component returns (lines 205-228),
    given the [loading] cell and the [error] cell; [if (error)] takes the
    empty string for false. *)
Inductive Screen : Type := LoadingScreen | ErrorScreen | NavigationScreen.

Definition render (isLoading : bool) (err : option string) : Screen :=
  if isLoading then LoadingScreen
  else match err with
       | Some message =>
           if String.eqb message "" then NavigationScreen else ErrorScreen
       | None => NavigationScreen
       end.

(** What the subscriptions deliver. *)
Inductive Event : Type :=
| LocationUpdate (coords : Coords)
| HeadingUpdate (heading : Heading)
| MagnetometerUpdate (data : SensorData).

Definition step (st : State) (ev : Event) : State :=
  match ev with
  | LocationUpdate coords => onLocation st coords
  | HeadingUpdate heading => onHeading st heading
  | MagnetometerUpdate data => onMagnetometer st data
  end.

(** The state after a sequence of deliveries, oldest first. *)
Definition run (st : State) (evs : list Event) : State :=
  fold_left step evs st.

(** The coordinates of the latest location update of a sequence. *)
Definition lastLocation (evs : list Event) : option Coords :=
  fold_left (fun acc ev =>
               match ev with LocationUpdate coords => Some coords | _ => acc end)
            evs None.

End GPSDirectionalArrow.

(** ** Steps of the code in binary64 *)

Module Binary64.

Import PrimFloat.

(** [Math.PI]. *)
Definition PI : float := 0x1.921fb54442d18p+1%float.

(** [if (angle < 0) { angle += 360; }]
    (transponderCompass.tsx 26-28 and 71-73, transponderWaypoint.tsx
    143-145). *)
Definition normalize360 (angle : float) : float :=
  if (angle <? 0)%float then (angle + 360)%float else angle.

(** The body of both magnetometer listeners after the call of
    [Math.atan2], whose result is [theta]:
    [theta * (180 / Math.PI)], then the conditional add
    (transponderCompass.tsx 23-28, transponderWaypoint.tsx 142-145). *)
Definition headingFromAtan2 (theta : float) : float :=
  normalize360 (theta * (180 / PI))%float.

(** transponderWaypoint.tsx 38-39 after the calls of [Math.sin] and
    [Math.cos], whose results are the arguments. *)
Definition haversine_a (sinHalfDphi cosPhi1 cosPhi2 sinHalfDlam : float)
  : float :=
  (sinHalfDphi * sinHalfDphi
   + cosPhi1 * cosPhi2 * sinHalfDlam * sinHalfDlam)%float.

End Binary64.

(** ** Facts about the [Math] model *)

Section MathFacts.

Lemma atan2_bound (y x : R) : - PI < JS.atan2 y x <= PI.
Proof.
  pose proof PI_RGT_0 as HPI.
  unfold JS.atan2.
  destruct (Rlt_dec 0 x) as [Hx | Hx].
  - pose proof (atan_bound (y / x)); lra.
  - destruct (Rlt_dec x 0) as [Hx' | Hx'].
    + destruct (Rlt_dec y 0) as [Hy | Hy].
      * assert (0 < y / x).
        { replace (y / x) with ((- y) * / (- x)) by (field; lra).
          apply Rmult_lt_0_compat; [lra | apply Rinv_0_lt_compat; lra]. }
        pose proof (atan_increasing 0 (y / x) H) as Hinc.
        rewrite atan_0 in Hinc.
        pose proof (atan_bound (y / x)); lra.
      * assert (y / x <= 0).
        { replace (y / x) with (- (y * / (- x))) by (field; lra).
          assert (0 <= y * / (- x)); [ | lra].
          apply Rmult_le_pos; [lra | ].
          left; apply Rinv_0_lt_compat; lra. }
        assert (atan (y / x) <= 0).
        { destruct H as [H | H].
          - pose proof (atan_increasing (y / x) 0 H) as Hinc.
            rewrite atan_0 in Hinc; lra.
          - rewrite H, atan_0; lra. }
        pose proof (atan_bound (y / x)); lra.
    + destruct (Rlt_dec 0 y); [lra | ].
      destruct (Rlt_dec y 0); lra.
Qed.

Lemma atan2_nonneg (y x : R) : 0 <= y -> 0 <= JS.atan2 y x.
Proof.
  intros Hy.
  pose proof PI_RGT_0 as HPI.
  unfold JS.atan2.
  destruct (Rlt_dec 0 x) as [Hx | Hx].
  - assert (0 <= y / x) as [H | H].
    { apply Rmult_le_pos; [lra | left; apply Rinv_0_lt_compat; lra]. }
    + pose proof (atan_increasing 0 (y / x) H) as Hinc.
      rewrite atan_0 in Hinc; lra.
    + rewrite <- H, atan_0; lra.
  - destruct (Rlt_dec x 0) as [Hx' | Hx'].
    + destruct (Rlt_dec y 0); [lra | ].
      pose proof (atan_bound (y / x)); lra.
    + destruct (Rlt_dec 0 y); [lra | ].
      destruct (Rlt_dec y 0); lra.
Qed.

Lemma atan2_0_0 : JS.atan2 0 0 = 0.
Proof.
  unfold JS.atan2.
  destruct (Rlt_dec 0 0); [lra | reflexivity].
Qed.

Lemma atan2_0_pos (x : R) : 0 < x -> JS.atan2 0 x = 0.
Proof.
  intros Hx. unfold JS.atan2.
  destruct (Rlt_dec 0 x); [ | lra].
  replace (0 / x) with 0 by (field; lra).
  apply atan_0.
Qed.

(** The model agrees with [Math.atan2] on the axes. *)
Lemma atan2_axes :
  JS.atan2 1 0 = PI / 2 /\ JS.atan2 (-1) 0 = - (PI / 2) /\
  JS.atan2 0 (-1) = PI /\ JS.atan2 0 1 = 0.
Proof.
  unfold JS.atan2.
  repeat match goal with
         | |- context [Rlt_dec ?a ?b] => destruct (Rlt_dec a b); try lra
         end.
  replace (0 / -1) with 0 by lra. replace (0 / 1) with 0 by lra.
  rewrite atan_0. repeat split; lra.
Qed.

(** An [atan2] result converted to degrees lies in (-180, 180]. *)
Lemma atan2_degrees_bound (y x : R) :
  -180 < JS.atan2 y x * (180 / PI) <= 180.
Proof.
  pose proof PI_RGT_0 as HPI.
  pose proof (atan2_bound y x) as [Hlo Hhi].
  assert (0 < 180 / PI) as Hk.
  { apply Rmult_lt_0_compat; [lra | apply Rinv_0_lt_compat; lra]. }
  assert (PI * (180 / PI) = 180) as Hone by (field; lra).
  split.
  - apply (Rmult_lt_compat_r _ _ _ Hk) in Hlo. lra.
  - apply (Rmult_le_compat_r (180 / PI)) in Hhi; lra.
Qed.

Lemma trunc_unit (r : R) : 0 <= r < 1 -> JS.trunc r = 0%Z.
Proof.
  intros Hr. unfold JS.trunc.
  destruct (Rlt_dec r 0); [lra | ].
  symmetry; apply Int_part_spec; simpl; lra.
Qed.

Lemma trunc_neg_unit (r : R) : -1 < r < 0 -> JS.trunc r = 0%Z.
Proof.
  intros Hr. unfold JS.trunc.
  destruct (Rlt_dec r 0); [ | lra].
  replace (Int_part (- r)) with 0%Z; [reflexivity | ].
  apply Int_part_spec; simpl; lra.
Qed.

Lemma trunc_one (r : R) : 1 <= r < 2 -> JS.trunc r = 1%Z.
Proof.
  intros Hr. unfold JS.trunc.
  destruct (Rlt_dec r 0); [lra | ].
  symmetry; apply Int_part_spec; simpl; lra.
Qed.

Lemma rem_below (x m : R) : 0 < m -> 0 <= x < m -> JS.rem x m = x.
Proof.
  intros Hm Hx. unfold JS.rem.
  rewrite trunc_unit; [simpl; lra | ].
  split.
  - apply Rmult_le_pos; [lra | left; apply Rinv_0_lt_compat; lra].
  - apply (Rmult_lt_reg_r m); [lra | ].
    replace (x / m * m) with x by (field; lra). lra.
Qed.

Lemma rem_neg_below (x m : R) : 0 < m -> - m < x < 0 -> JS.rem x m = x.
Proof.
  intros Hm Hx. unfold JS.rem.
  rewrite trunc_neg_unit; [simpl; lra | ].
  split.
  - apply (Rmult_lt_reg_r m); [lra | ].
    replace (x / m * m) with x by (field; lra). lra.
  - apply (Rmult_lt_reg_r m); [lra | ].
    replace (x / m * m) with x by (field; lra). lra.
Qed.

Lemma rem_once (x m : R) : 0 < m -> m <= x < 2 * m -> JS.rem x m = x - m.
Proof.
  intros Hm Hx. unfold JS.rem.
  rewrite trunc_one; [simpl; lra | ].
  split.
  - apply (Rmult_le_reg_r m); [lra | ].
    replace (x / m * m) with x by (field; lra). lra.
  - apply (Rmult_lt_reg_r m); [lra | ].
    replace (x / m * m) with x by (field; lra). lra.
Qed.

End MathFacts.

(** ** Heading normalization *)

Section Normalization.

(** The step leaves a non-negative angle alone. *)
Lemma normalize360_fixed (angle : R) : 0 <= angle -> normalize360 angle = angle.
Proof.
  intros H. unfold normalize360.
  destruct (Rlt_dec angle 0); [lra | reflexivity].
Qed.

(** The step adds one turn to a negative angle. *)
Lemma normalize360_shift (angle : R) :
  angle < 0 -> normalize360 angle = angle + 360.
Proof.
  intros H. unfold normalize360.
  destruct (Rlt_dec angle 0); [reflexivity | lra].
Qed.

(** In exact arithmetic one conditional add brings every angle of
    [-360, 360) into [0, 360). *)
Lemma normalize360_one_turn (angle : R) :
  -360 <= angle < 360 -> 0 <= normalize360 angle < 360.
Proof.
  intros H. unfold normalize360.
  destruct (Rlt_dec angle 0); lra.
Qed.

End Normalization.

(** The step is no general normalization: it adds 360 once, so [-450]
    would go to [-90].  The listeners never apply it to such a value. *)
Lemma normalize360_neg450_out_of_range :
  normalize360 (-450) = -90 /\
  ~ (0 <= normalize360 (-450) < 360) /\
  normalize360 (-450) <> 270 /\
  normalize360 (normalize360 (-450)) <> normalize360 (-450).
Proof.
  assert (normalize360 (-450) = -90) as E.
  { rewrite normalize360_shift; lra. }
  rewrite E.
  repeat split; try lra.
  rewrite normalize360_shift; lra.
Qed.

Section RoundedNormalization.

Import PrimFloat.

(** C1, as stated, fails on an angle the listeners do produce.  For the
    sample x = 1e-20, y = 1, [Math.atan2(-x, y) * (180 / Math.PI)] is the
    double -5.729577951308232e-19.  It is negative, so 360 is added, and
    in binary64 the sum is 360 itself, which is outside [0, 360). *)
Lemma normalize360_tiny_negative_gives_360 :
  (-0x1.5236ef1b4e0fdp-61 <? 0)%float = true /\
  Binary64.normalize360 (-0x1.5236ef1b4e0fdp-61)%float = 360%float /\
  (Binary64.normalize360 (-0x1.5236ef1b4e0fdp-61) <? 360)%float = false.
Proof. repeat split; vm_compute; reflexivity. Qed.

End RoundedNormalization.

(** C1, amended: on the angles it is applied to, the [atan2] results in
    degrees, which lie in [-180, 180], the single conditional add returns
    a value in the closed range [0, 360]; a second application changes
    nothing, and a value that is not negative is returned unchanged. *)
Theorem normalize360_on_atan2_range (angle : R) :
  -180 <= angle <= 180 ->
  0 <= normalize360 angle <= 360 /\
  normalize360 (normalize360 angle) = normalize360 angle /\
  (0 <= angle -> normalize360 angle = angle).
Proof.
  intros H.
  assert (0 <= normalize360 angle < 360) as Hr
    by (apply normalize360_one_turn; lra).
  split; [lra | split].
  - apply normalize360_fixed; lra.
  - apply normalize360_fixed.
Qed.

Lemma normalize360_on_atan2_range_witness :
  -180 <= -90 <= 180 /\
  (0 <= normalize360 (-90) <= 360 /\
   normalize360 (normalize360 (-90)) = normalize360 (-90) /\
   (0 <= -90 -> normalize360 (-90) = -90)).
Proof.
  split; [lra | apply (normalize360_on_atan2_range (-90)); lra].
Defined.

Section RoundedListener.

Import PrimFloat.

(** C10, as stated, fails: for the sample x = 1e-20, y = 1,
    [Math.atan2(-x, y)] is the double nearest to -1e-20; in degrees it is
    -5.729577951308232e-19, and both listeners add 360 to it, which in
    binary64 gives 360 itself, outside [0, 360). *)
Lemma listener_heading_rounds_to_360 :
  (-0x1.79ca10c924223p-67 * (180 / Binary64.PI))%float
  = (-0x1.5236ef1b4e0fdp-61)%float /\
  Binary64.headingFromAtan2 (-0x1.79ca10c924223p-67)%float = 360%float /\
  (Binary64.headingFromAtan2 (-0x1.79ca10c924223p-67) <? 360)%float = false.
Proof. repeat split; vm_compute; reflexivity. Qed.

End RoundedListener.

(** C10, amended: both magnetometer listeners produce a heading in the
    closed range [0, 360] for every sample: the [atan2] result in degrees
    is in [-180, 180], where the single conditional add cannot leave that
    range; 360 itself comes out when a negative angle is too small for its
    sum with 360 to be below 360. *)
Theorem magnetometer_listeners_heading_in_range
  (cst : TransponderCompass.State) (wst : GPSDirectionalArrow.State)
  (data : SensorData) :
  0 <= TransponderCompass.heading (TransponderCompass.onMagnetometer cst data)
    <= 360 /\
  0 <= GPSDirectionalArrow.compassHeading
         (GPSDirectionalArrow.onMagnetometer wst data) <= 360.
Proof.
  simpl.
  unfold TransponderCompass.magneticAngle, GPSDirectionalArrow.magneticHeading.
  pose proof (atan2_degrees_bound (- sx data) (sy data)) as Hb.
  pose proof (normalize360_one_turn
                (JS.atan2 (- sx data) (sy data) * (180 / PI))) as Hn.
  split; lra.
Qed.

(** ** The rotation of the arrow *)

Section Rotation.

(** A value within half a turn of zero is no larger than any value that
    differs from it by whole turns. *)
Lemma half_turn_minimal (s : R) (m : Z) :
  -180 <= s <= 180 -> Rabs s <= Rabs (s + 360 * IZR m).
Proof.
  intros Hs.
  assert (Rabs s <= 180) as Habs by (apply Rabs_le; lra).
  destruct (Z_lt_le_dec m 0) as [Hneg | Hnn].
  - assert (IZR m <= -1) as Hm by (apply IZR_le; lia).
    rewrite (Rabs_left (s + 360 * IZR m)); lra.
  - destruct (Z_le_lt_eq_dec 0 m Hnn) as [Hpos | Hz].
    + assert (1 <= IZR m) as Hm by (apply IZR_le; lia).
      rewrite (Rabs_right (s + 360 * IZR m)); lra.
    + subst m. replace (s + 360 * 0) with s by lra. lra.
Qed.

(** The three branches of the wraparound, for a difference within one
    turn. *)
Lemma shortestDelta_cases (a b : R) :
  (180 < a - b /\ shortestDelta a b = a - b + 360 * IZR (-1)) \/
  (a - b < -180 /\ shortestDelta a b = a - b + 360 * IZR 1) \/
  (-180 <= a - b <= 180 /\ shortestDelta a b = a - b + 360 * IZR 0).
Proof.
  unfold shortestDelta.
  destruct (Rlt_dec 180 (a - b)) as [H1 | H1].
  - left; split; [exact H1 | lra].
  - destruct (Rlt_dec (a - b) (-180)) as [H2 | H2].
    + right; left; split; [exact H2 | lra].
    + right; right; split; lra.
Qed.

(** The wraparound example: bearing 350, heading 10. *)
Lemma shortestDelta_350_10 : shortestDelta 350 10 = -20.
Proof.
  unfold shortestDelta.
  destruct (Rlt_dec 180 (350 - 10)); lra.
Qed.

End Rotation.

(** C2, as stated, fails at the lower end of the interval: for bearing 0
    and heading 180 the difference is exactly [-180], neither test fires
    and the code keeps [-180], which is outside (-180, 180]. *)
Lemma shortestDelta_0_180_keeps_minus_180 :
  0 <= 0 < 360 /\ 0 <= 180 < 360 /\
  shortestDelta 0 180 = -180 /\
  ~ (-180 < shortestDelta 0 180 <= 180).
Proof.
  assert (shortestDelta 0 180 = -180) as E.
  { unfold shortestDelta.
    destruct (Rlt_dec 180 (0 - 180)); [lra | ].
    destruct (Rlt_dec (0 - 180) (-180)); lra. }
  rewrite E. repeat split; lra.
Qed.

(** C2, amended: for bearing [a] and heading [b] in [0, 360) the rotation
    is [a - b] moved by a whole number of turns into the closed interval
    [-180, 180]; it is above [-180] unless [a - b] is exactly [-180], and
    then it is [-180]; and no rotation from [b] to [a] has a smaller
    magnitude.  For bearing 350 and heading 10 it is [-20]. *)
Theorem shortestDelta_closed_half_turn (a b : R) :
  0 <= a < 360 -> 0 <= b < 360 ->
  -180 <= shortestDelta a b <= 180 /\
  (exists k : Z, shortestDelta a b = a - b + 360 * IZR k) /\
  (a - b <> -180 -> -180 < shortestDelta a b) /\
  (a - b = -180 -> shortestDelta a b = -180) /\
  (forall k : Z, Rabs (shortestDelta a b) <= Rabs (a - b + 360 * IZR k)) /\
  shortestDelta 350 10 = -20.
Proof.
  intros Ha Hb.
  assert (-180 <= shortestDelta a b <= 180) as Hrange.
  { destruct (shortestDelta_cases a b) as [[H E] | [[H E] | [H E]]];
      rewrite E; simpl; lra. }
  split; [exact Hrange | split; [ | split; [ | split; [ | split]]]];
    [ | | | | exact shortestDelta_350_10].
  - destruct (shortestDelta_cases a b) as [[_ E] | [[_ E] | [_ E]]];
      eexists; exact E.
  - intros Hne.
    destruct (shortestDelta_cases a b) as [[H E] | [[H E] | [H E]]];
      rewrite E; simpl; lra.
  - intros Heq.
    destruct (shortestDelta_cases a b) as [[H E] | [[H E] | [H E]]];
      rewrite E; simpl; lra.
  - intros k.
    destruct (shortestDelta_cases a b) as [[_ E] | [[_ E] | [_ E]]].
    + replace (a - b + 360 * IZR k)
        with (shortestDelta a b + 360 * IZR (k + 1)).
      * apply half_turn_minimal; exact Hrange.
      * rewrite E, plus_IZR; simpl; lra.
    + replace (a - b + 360 * IZR k)
        with (shortestDelta a b + 360 * IZR (k - 1)).
      * apply half_turn_minimal; exact Hrange.
      * rewrite E, minus_IZR; simpl; lra.
    + replace (a - b + 360 * IZR k)
        with (shortestDelta a b + 360 * IZR k).
      * apply half_turn_minimal; exact Hrange.
      * rewrite E; simpl; lra.
Qed.

Lemma shortestDelta_closed_half_turn_witness :
  (0 <= 350 < 360 /\ 0 <= 10 < 360) /\
  (-180 <= shortestDelta 350 10 <= 180 /\
   (exists k : Z, shortestDelta 350 10 = 350 - 10 + 360 * IZR k) /\
   (350 - 10 <> -180 -> -180 < shortestDelta 350 10) /\
   (350 - 10 = -180 -> shortestDelta 350 10 = -180) /\
   (forall k : Z,
      Rabs (shortestDelta 350 10) <= Rabs (350 - 10 + 360 * IZR k)) /\
   shortestDelta 350 10 = -20).
Proof.
  split; [lra | apply (shortestDelta_closed_half_turn 350 10); lra].
Defined.

(** ** The heading event *)

Section HeadingEvent.

Import GPSDirectionalArrow.

Lemma headingValue_true (h : Heading) :
  trueHeading h <> -1 -> headingValue h = trueHeading h.
Proof.
  intros H. unfold headingValue.
  destruct (Req_dec_T (trueHeading h) (-1)); [contradiction | reflexivity].
Qed.

Lemma headingValue_mag (h : Heading) :
  trueHeading h = -1 -> headingValue h = magHeading h.
Proof.
  intros H. unfold headingValue.
  destruct (Req_dec_T (trueHeading h) (-1)); [reflexivity | contradiction].
Qed.

(** The callback writes the heading cell and nothing else. *)
Lemma onHeading_frame (st : State) (h : Heading) :
  currentLocation (onHeading st h) = currentLocation st /\
  stBearing (onHeading st h) = stBearing st /\
  stDistance (onHeading st h) = stDistance st /\
  loading (onHeading st h) = loading st.
Proof. repeat split. Qed.

End HeadingEvent.

(** C3, as stated, fails: on the first event, with both fields [-1], the
    heading cell goes from its initial 0 to the sentinel [-1]. *)
Lemma onHeading_both_sentinels_first_event :
  GPSDirectionalArrow.compassHeading GPSDirectionalArrow.initial = 0 /\
  GPSDirectionalArrow.compassHeading
    (GPSDirectionalArrow.onHeading GPSDirectionalArrow.initial
       (GPSDirectionalArrow.mkHeading (-1) (-1))) = -1 /\
  GPSDirectionalArrow.compassHeading
    (GPSDirectionalArrow.onHeading GPSDirectionalArrow.initial
       (GPSDirectionalArrow.mkHeading (-1) (-1)))
  <> GPSDirectionalArrow.compassHeading GPSDirectionalArrow.initial.
Proof.
  simpl. rewrite headingValue_mag by reflexivity. simpl.
  repeat split; lra.
Qed.

(** C3, amended: a heading event has no failure case; when both fields are
    [-1] the magnetic field is adopted like any other value, so the current
    heading becomes [-1] whatever it was before. *)
Theorem onHeading_both_sentinels
  (st : GPSDirectionalArrow.State) (h : GPSDirectionalArrow.Heading) :
  GPSDirectionalArrow.trueHeading h = -1 ->
  GPSDirectionalArrow.magHeading h = -1 ->
  GPSDirectionalArrow.compassHeading (GPSDirectionalArrow.onHeading st h) = -1.
Proof.
  intros Ht Hm. simpl.
  rewrite headingValue_mag by exact Ht. exact Hm.
Qed.

Lemma onHeading_both_sentinels_witness :
  GPSDirectionalArrow.compassHeading
    (GPSDirectionalArrow.onHeading
       (GPSDirectionalArrow.mkState None 42 0 (Some 0) true)
       (GPSDirectionalArrow.mkHeading (-1) (-1))) = -1.
Proof.
  apply (onHeading_both_sentinels
           (GPSDirectionalArrow.mkState None 42 0 (Some 0) true)
           (GPSDirectionalArrow.mkHeading (-1) (-1)));
    reflexivity.
Defined.

(** C9: on a heading event the true heading is adopted unless it is the
    sentinel [-1], and the magnetic heading otherwise; true heading [-1]
    with magnetic heading 87 gives current heading 87. *)
Theorem onHeading_prefers_true
  (st : GPSDirectionalArrow.State) (h : GPSDirectionalArrow.Heading) :
  (GPSDirectionalArrow.trueHeading h <> -1 ->
   GPSDirectionalArrow.compassHeading (GPSDirectionalArrow.onHeading st h)
   = GPSDirectionalArrow.trueHeading h) /\
  (GPSDirectionalArrow.trueHeading h = -1 ->
   GPSDirectionalArrow.compassHeading (GPSDirectionalArrow.onHeading st h)
   = GPSDirectionalArrow.magHeading h) /\
  GPSDirectionalArrow.compassHeading
    (GPSDirectionalArrow.onHeading st (GPSDirectionalArrow.mkHeading (-1) 87))
  = 87.
Proof.
  simpl. split; [ | split].
  - apply headingValue_true.
  - apply headingValue_mag.
  - apply headingValue_mag. reflexivity.
Qed.

Lemma onHeading_prefers_true_witness :
  GPSDirectionalArrow.compassHeading
    (GPSDirectionalArrow.onHeading GPSDirectionalArrow.initial
       (GPSDirectionalArrow.mkHeading 123 87)) = 123 /\
  GPSDirectionalArrow.compassHeading
    (GPSDirectionalArrow.onHeading GPSDirectionalArrow.initial
       (GPSDirectionalArrow.mkHeading (-1) 87)) = 87.
Proof.
  split.
  - apply (proj1 (onHeading_prefers_true GPSDirectionalArrow.initial
                    (GPSDirectionalArrow.mkHeading 123 87))).
    simpl; lra.
  - apply (proj1 (proj2 (onHeading_prefers_true GPSDirectionalArrow.initial
                           (GPSDirectionalArrow.mkHeading (-1) 87)))).
    reflexivity.
Defined.

(** ** Bearing and distance *)

Section Navigation.

Import GPSDirectionalArrow.

Lemma sin_sqr_unit (x : R) : 0 <= sin x * sin x <= 1.
Proof.
  pose proof (SIN_bound x) as [Hlo Hhi].
  split; nra.
Qed.

(** The haversine term does not depend on the direction of travel. *)
Lemma haversine_a_sym (p q : Coords) : haversine_a p q = haversine_a q p.
Proof.
  unfold haversine_a; cbv zeta.
  replace ((latitude q - latitude p) * PI / 180 / 2)
    with (- ((latitude p - latitude q) * PI / 180 / 2)) by lra.
  replace ((longitude q - longitude p) * PI / 180 / 2)
    with (- ((longitude p - longitude q) * PI / 180 / 2)) by lra.
  rewrite !sin_neg. ring.
Qed.

Lemma haversine_a_same (p : Coords) : haversine_a p p = 0.
Proof.
  unfold haversine_a; cbv zeta.
  replace ((latitude p - latitude p) * PI / 180 / 2) with 0 by lra.
  replace ((longitude p - longitude p) * PI / 180 / 2) with 0 by lra.
  rewrite sin_0. ring.
Qed.

Lemma sqrt_defined (x : R) : 0 <= x -> JS.sqrt x = Some (sqrt x).
Proof.
  intros Hx. unfold JS.sqrt.
  destruct (Rlt_dec x 0); [lra | reflexivity].
Qed.

(** The bearing is in [0, 360) for all coordinates. *)
Lemma calculatedBearing_range (p q : Coords) :
  0 <= calculatedBearing p q < 360.
Proof.
  unfold calculatedBearing; cbv zeta.
  match goal with |- context [JS.atan2 ?y ?x] =>
    pose proof (atan2_degrees_bound y x) as Hb;
    set (theta := JS.atan2 y x) in *
  end.
  replace (theta * 180 / PI) with (theta * (180 / PI)) by (unfold Rdiv; ring).
  destruct (Rlt_dec (theta * (180 / PI) + 360) 360) as [Hlt | Hge].
  - rewrite rem_below; lra.
  - rewrite rem_once; lra.
Qed.

Lemma calculatedDistance_same (p : Coords) : calculatedDistance p p = Some 0.
Proof.
  unfold calculatedDistance; cbv zeta.
  rewrite haversine_a_same.
  rewrite (sqrt_defined 0) by lra.
  rewrite (sqrt_defined (1 - 0)) by lra.
  rewrite sqrt_0. replace (1 - 0) with 1 by lra. rewrite sqrt_1.
  rewrite atan2_0_pos by lra.
  f_equal. ring.
Qed.

Lemma calculatedBearing_same (p : Coords) : calculatedBearing p p = 0.
Proof.
  unfold calculatedBearing; cbv zeta.
  replace ((longitude p - longitude p) * PI / 180) with 0 by lra.
  rewrite sin_0, cos_0.
  replace (0 * cos (latitude p * PI / 180)) with 0 by ring.
  match goal with |- context [JS.atan2 0 ?x] =>
    replace x with 0 by ring
  end.
  rewrite atan2_0_0.
  replace (0 * 180 / PI + 360) with 360.
  - rewrite rem_once; lra.
  - pose proof PI_RGT_0. field. lra.
Qed.

Lemma sin_add_turn (x : R) : sin (x + 2 * PI) = sin x.
Proof. rewrite sin_plus, sin_2PI, cos_2PI. ring. Qed.

Lemma haversine_a_turn_to (p q : Coords) :
  haversine_a p (turnLongitude q) = haversine_a p q.
Proof.
  unfold haversine_a, turnLongitude; cbv zeta; simpl.
  replace ((longitude q + 360 - longitude p) * PI / 180 / 2)
    with ((longitude q - longitude p) * PI / 180 / 2 + PI) by lra.
  rewrite neg_sin. ring.
Qed.

End Navigation.

(** A distance that is a number is not negative, for all coordinates. *)
Lemma calculatedDistance_not_negative
  (p q : GPSDirectionalArrow.Coords) (d : R) :
  GPSDirectionalArrow.calculatedDistance p q = Some d -> 0 <= d.
Proof.
  unfold GPSDirectionalArrow.calculatedDistance, JS.sqrt; cbv zeta.
  destruct (Rlt_dec (GPSDirectionalArrow.haversine_a p q) 0);
    [discriminate | ].
  destruct (Rlt_dec (1 - GPSDirectionalArrow.haversine_a p q) 0);
    [discriminate | ].
  intros E. injection E as <-.
  pose proof (atan2_nonneg
                (sqrt (GPSDirectionalArrow.haversine_a p q))
                (sqrt (1 - GPSDirectionalArrow.haversine_a p q))
                (sqrt_pos _)) as Hlo.
  unfold GPSDirectionalArrow.earthRadius. nra.
Qed.

(** C4, as stated, fails: the target longitude 360 is out of range, yet the
    computation returns a result: a bearing in [0, 360) and a distance
    that is a number, below one metre. *)
Lemma calculateNavigationData_accepts_longitude_360 :
  ~ GPSDirectionalArrow.validCoords (GPSDirectionalArrow.mkCoords 0 360) /\
  (exists d,
     GPSDirectionalArrow.distance
       (GPSDirectionalArrow.calculateNavigationData
          (GPSDirectionalArrow.mkCoords 0 0)
          (GPSDirectionalArrow.mkCoords 0 360)) = Some d /\
     0 <= d < 1) /\
  0 <= GPSDirectionalArrow.bearing
         (GPSDirectionalArrow.calculateNavigationData
            (GPSDirectionalArrow.mkCoords 0 0)
            (GPSDirectionalArrow.mkCoords 0 360)) < 360.
Proof.
  assert (GPSDirectionalArrow.mkCoords 0 360
          = GPSDirectionalArrow.turnLongitude (GPSDirectionalArrow.mkCoords 0 0))
    as E.
  { unfold GPSDirectionalArrow.turnLongitude; simpl. f_equal. lra. }
  split; [ | split].
  - unfold GPSDirectionalArrow.validCoords; simpl. lra.
  - exists 0. split; [ | lra].
    rewrite E. simpl. unfold GPSDirectionalArrow.calculatedDistance.
    rewrite haversine_a_turn_to.
    fold (GPSDirectionalArrow.calculatedDistance
            (GPSDirectionalArrow.mkCoords 0 0) (GPSDirectionalArrow.mkCoords 0 0)).
    apply calculatedDistance_same.
  - simpl. apply calculatedBearing_range.
Qed.

(** C4, amended: the computation has no range check and rejects nothing:
    for coordinates out of range it returns a result all the same, with a
    bearing in [0, 360) and a distance that is [NaN] or a number that is
    not negative. *)
Theorem calculateNavigationData_never_rejects
  (fromLocation toLocation : GPSDirectionalArrow.Coords) :
  ~ GPSDirectionalArrow.validCoords fromLocation \/
  ~ GPSDirectionalArrow.validCoords toLocation ->
  exists nav,
    GPSDirectionalArrow.calculateNavigationData fromLocation toLocation = nav /\
    0 <= GPSDirectionalArrow.bearing nav < 360 /\
    match GPSDirectionalArrow.distance nav with
    | Some d => 0 <= d
    | None => True
    end.
Proof.
  intros _. eexists. split; [reflexivity | ]. simpl.
  split; [apply calculatedBearing_range | ].
  destruct (GPSDirectionalArrow.calculatedDistance fromLocation toLocation)
    as [d | ] eqn:E;
    [exact (calculatedDistance_not_negative _ _ d E) | exact I].
Qed.

Lemma calculateNavigationData_never_rejects_witness :
  exists nav,
    GPSDirectionalArrow.calculateNavigationData
      (GPSDirectionalArrow.mkCoords 100 0)
      (GPSDirectionalArrow.mkCoords 0 360) = nav /\
    0 <= GPSDirectionalArrow.bearing nav < 360 /\
    match GPSDirectionalArrow.distance nav with
    | Some d => 0 <= d
    | None => True
    end.
Proof.
  apply (calculateNavigationData_never_rejects
           (GPSDirectionalArrow.mkCoords 100 0)
           (GPSDirectionalArrow.mkCoords 0 360)).
  left. unfold GPSDirectionalArrow.validCoords; simpl. lra.
Defined.

Section RoundedHaversine.

Import PrimFloat.

(** C6 fails on the code for positions in range that are nearly antipodal.
    From (8, 0) to (-8, 180): [Math.sin(dphi/2)] is -0.13917310096006544,
    [Math.cos(phi1)] and [Math.cos(phi2)] are 0.9902680687415704 and
    [Math.sin(dlam/2)] is 1.  In binary64 their haversine term is
    1.0000000000000002, above 1, so [Math.sqrt(1 - a)] is [NaN], and with it
    the distance. *)
Lemma haversine_a_exceeds_one_near_antipodes :
  let a := Binary64.haversine_a
             (-0x1.1d06c968d9e19p-3) 0x1.fb046a930947ap-1
             0x1.fb046a930947ap-1 1 in
  a = 0x1.0000000000001p+0%float /\
  (1 <? a)%float = true /\
  is_nan (sqrt (1 - a)) = true.
Proof. cbv zeta. repeat split; vm_compute; reflexivity. Qed.

End RoundedHaversine.

(** C7: for every position [A], in range or not, the computation on
    (A, A) returns distance 0 and bearing 0. *)
Theorem calculateNavigationData_same_point (A : GPSDirectionalArrow.Coords) :
  GPSDirectionalArrow.calculateNavigationData A A
  = GPSDirectionalArrow.mkNavigationData (Some 0) 0.
Proof.
  unfold GPSDirectionalArrow.calculateNavigationData.
  rewrite calculatedDistance_same, calculatedBearing_same. reflexivity.
Qed.

(** C8: the distance from [A] to [B] and the distance from [B] to [A] are
    equal, for all positions: the same number, or [NaN] both ways. *)
Theorem calculatedDistance_symmetric (A B : GPSDirectionalArrow.Coords) :
  GPSDirectionalArrow.distance (GPSDirectionalArrow.calculateNavigationData A B)
  = GPSDirectionalArrow.distance
      (GPSDirectionalArrow.calculateNavigationData B A).
Proof.
  simpl. unfold GPSDirectionalArrow.calculatedDistance.
  rewrite (haversine_a_sym A B). reflexivity.
Qed.

(** ** Tilt compensation *)

Section Tilt.

Import TransponderCompass.

(** With the device level the compensated magnetometer values are the
    raw ones. *)
Lemma level_magX (acc mag : SensorData) : pitch acc = 0 -> magX acc mag = sx mag.
Proof.
  intros Hp. unfold magX; cbv zeta. rewrite Hp.
  replace (0 * PI / 180) with 0 by lra.
  rewrite cos_0, sin_0. ring.
Qed.

Lemma level_magY (acc mag : SensorData) :
  pitch acc = 0 -> roll acc = 0 -> magY acc mag = sy mag.
Proof.
  intros Hp Hr. unfold magY; cbv zeta. rewrite Hp, Hr.
  replace (0 * PI / 180) with 0 by lra.
  rewrite cos_0, sin_0. ring.
Qed.

(** A device lying flat, screen up, has pitch 0 and roll 0. *)
Lemma flat_is_level (g : R) :
  0 < g -> pitch (mkSensorData 0 0 g) = 0 /\ roll (mkSensorData 0 0 g) = 0.
Proof.
  intros Hg. unfold pitch, roll; simpl.
  rewrite atan2_0_pos by exact Hg. split; ring.
Qed.

End Tilt.

(** C5: with pitch 0 and roll 0 the tilt-compensated heading equals the
    uncompensated heading the magnetometer listener computes from the same
    sample, for every sample with (mx, my) other than (0, 0). *)
Theorem level_compensatedHeading_is_magneticAngle (acc mag : SensorData) :
  TransponderCompass.pitch acc = 0 ->
  TransponderCompass.roll acc = 0 ->
  sx mag <> 0 \/ sy mag <> 0 ->
  TransponderCompass.compensatedHeading acc mag
  = TransponderCompass.magneticAngle mag.
Proof.
  intros Hp Hr _.
  unfold TransponderCompass.compensatedHeading, TransponderCompass.magneticAngle.
  rewrite level_magX by exact Hp.
  rewrite level_magY by assumption.
  reflexivity.
Qed.

Lemma level_compensatedHeading_is_magneticAngle_witness :
  TransponderCompass.compensatedHeading
    (mkSensorData 0 0 1) (mkSensorData 3 4 5)
  = TransponderCompass.magneticAngle (mkSensorData 3 4 5).
Proof.
  apply (level_compensatedHeading_is_magneticAngle
           (mkSensorData 0 0 1) (mkSensorData 3 4 5)).
  - apply (flat_is_level 1); lra.
  - apply (flat_is_level 1); lra.
  - left; simpl; lra.
Defined.

(** ** A known route *)

(** From (0, 0) to (0, 90), a quarter of the equator: bearing 90 and
    distance [earthRadius * PI / 2]. *)
Lemma quarter_equator :
  GPSDirectionalArrow.calculateNavigationData
    (GPSDirectionalArrow.mkCoords 0 0) (GPSDirectionalArrow.mkCoords 0 90)
  = GPSDirectionalArrow.mkNavigationData
      (Some (GPSDirectionalArrow.earthRadius * (PI / 2))) 90.
Proof.
  pose proof PI_RGT_0 as HPI.
  unfold GPSDirectionalArrow.calculateNavigationData. f_equal.
  - unfold GPSDirectionalArrow.calculatedDistance,
      GPSDirectionalArrow.haversine_a; cbv zeta; simpl.
    replace ((0 - 0) * PI / 180 / 2) with 0 by lra.
    replace ((90 - 0) * PI / 180 / 2) with (PI / 4) by lra.
    replace (0 * PI / 180) with 0 by lra.
    rewrite sin_0, cos_0.
    assert (sin (PI / 4) * sin (PI / 4) = 1 / 2) as Hs.
    { rewrite sin_PI4.
      pose proof (sqrt_lt_R0 2 ltac:(lra)) as H2.
      pose proof (sqrt_sqrt 2 ltac:(lra)) as Hsq.
      field_simplify; [ | lra].
      replace (sqrt 2 ^ 2) with (sqrt 2 * sqrt 2) by ring.
      rewrite Hsq. reflexivity. }
    replace (0 * 0 + 1 * 1 * sin (PI / 4) * sin (PI / 4)) with (1 / 2)
      by (rewrite <- Hs; ring).
    replace (1 - 1 / 2) with (1 / 2) by lra.
    rewrite sqrt_defined by lra.
    assert (0 < sqrt (1 / 2)) as Hpos by (apply sqrt_lt_R0; lra).
    unfold JS.atan2. destruct (Rlt_dec 0 (sqrt (1 / 2))); [ | lra].
    replace (sqrt (1 / 2) / sqrt (1 / 2)) with 1 by (field; lra).
    rewrite atan_1. f_equal. lra.
  - unfold GPSDirectionalArrow.calculatedBearing; cbv zeta; simpl.
    replace ((90 - 0) * PI / 180) with (PI / 2) by lra.
    replace (0 * PI / 180) with 0 by lra.
    rewrite sin_0, cos_0, sin_PI2, cos_PI2.
    replace (1 * 1) with 1 by ring.
    replace (1 * 0 - 0 * 1 * 0) with 0 by ring.
    destruct atan2_axes as [E _]. rewrite E.
    replace (PI / 2 * 180 / PI + 360) with 450 by (field; lra).
    rewrite rem_once; lra.
Qed.

(** ** More on [atan2] *)

Section Atan2Facts.

(** The angle of a point does not change when the point is moved along
    its ray from the origin. *)
Lemma atan2_scale (k y x : R) :
  0 < k -> JS.atan2 (k * y) (k * x) = JS.atan2 y x.
Proof.
  intros Hk. unfold JS.atan2.
  destruct (Rlt_dec 0 (k * x)) as [A | A], (Rlt_dec 0 x) as [B | B];
    try (exfalso; nra).
  - f_equal. field. split; lra.
  - destruct (Rlt_dec (k * x) 0) as [C | C], (Rlt_dec x 0) as [D | D];
      try (exfalso; nra).
    + replace (k * y / (k * x)) with (y / x) by (field; split; lra).
      destruct (Rlt_dec (k * y) 0) as [E | E], (Rlt_dec y 0) as [F | F];
        try (exfalso; nra); reflexivity.
    + destruct (Rlt_dec 0 (k * y)) as [E | E], (Rlt_dec 0 y) as [F | F];
        try (exfalso; nra); try reflexivity.
      destruct (Rlt_dec (k * y) 0) as [G | G], (Rlt_dec y 0) as [H | H];
        try (exfalso; nra); reflexivity.
Qed.

(** In the first quadrant, axes included, the angle is at most a quarter
    turn. *)
Lemma atan2_first_quadrant (y x : R) :
  0 <= y -> 0 <= x -> 0 <= JS.atan2 y x <= PI / 2.
Proof.
  intros Hy Hx. pose proof PI_RGT_0 as HPI.
  split; [apply atan2_nonneg; exact Hy | ].
  unfold JS.atan2.
  destruct (Rlt_dec 0 x).
  - pose proof (atan_bound (y / x)); lra.
  - destruct (Rlt_dec x 0); [lra | ].
    destruct (Rlt_dec 0 y); [lra | ].
    destruct (Rlt_dec y 0); lra.
Qed.

(** [atan2] undoes [sin] and [cos] on a quarter turn. *)
Lemma atan2_sin_cos (h : R) :
  0 <= h <= PI / 2 -> JS.atan2 (sin h) (cos h) = h.
Proof.
  intros [Hlo Hhi]. pose proof PI_RGT_0 as HPI.
  destruct Hhi as [Hlt | Heq].
  - assert (0 < cos h) as Hc by (apply cos_gt_0; lra).
    unfold JS.atan2. destruct (Rlt_dec 0 (cos h)); [ | lra].
    fold (tan h). apply atan_tan. lra.
  - subst h. rewrite sin_PI2, cos_PI2.
    destruct atan2_axes as [E _]. exact E.
Qed.

(** The two square roots of the haversine step, for a half angle in the
    first quarter turn. *)
Lemma haversine_angle (h : R) :
  0 <= h <= PI / 2 ->
  JS.atan2 (sqrt (sin h * sin h)) (sqrt (1 - sin h * sin h)) = h.
Proof.
  intros Hh. pose proof PI_RGT_0 as HPI.
  assert (0 <= sin h) as Hs by (apply sin_ge_0; lra).
  assert (0 <= cos h) as Hc by (apply cos_ge_0; lra).
  rewrite (sqrt_square (sin h) Hs).
  replace (1 - sin h * sin h) with (cos h * cos h).
  - rewrite (sqrt_square (cos h) Hc). apply atan2_sin_cos; exact Hh.
  - pose proof (sin2_cos2 h) as E. unfold Rsqr in E. lra.
Qed.

End Atan2Facts.

(** ** The compass screen: tilt and heading *)

Section CompassFacts.

Import TransponderCompass.

Lemma atan2_0_neg (x : R) : x < 0 -> JS.atan2 0 x = PI.
Proof.
  intros Hx. unfold JS.atan2.
  destruct (Rlt_dec 0 x); [lra | ].
  destruct (Rlt_dec x 0); [ | lra].
  destruct (Rlt_dec 0 0); [lra | ].
  replace (0 / x) with 0 by (field; lra).
  rewrite atan_0. ring.
Qed.

Lemma atan2_pos_0 (y : R) : 0 < y -> JS.atan2 y 0 = PI / 2.
Proof.
  intros Hy. unfold JS.atan2.
  destruct (Rlt_dec 0 0); [lra | ].
  destruct (Rlt_dec 0 y); [reflexivity | lra].
Qed.

Lemma atan2_neg_0 (y : R) : y < 0 -> JS.atan2 y 0 = - (PI / 2).
Proof.
  intros Hy. unfold JS.atan2.
  destruct (Rlt_dec 0 0); [lra | ].
  destruct (Rlt_dec 0 y); [lra | ].
  destruct (Rlt_dec y 0); [reflexivity | lra].
Qed.

End CompassFacts.

(** X1: for every pair of samples, pitch and roll are in [-180, 180], the
    tilt-compensated heading is in [0, 360] and the rotation of the compass
    rose is in [-360, 0], ends included. *)
Theorem compass_render_ranges (st : TransponderCompass.State) :
  -180 <= TransponderCompass.pitch (TransponderCompass.accelerometerData st)
    <= 180 /\
  -180 <= TransponderCompass.roll (TransponderCompass.accelerometerData st)
    <= 180 /\
  0 <= TransponderCompass.compensatedHeading
         (TransponderCompass.accelerometerData st)
         (TransponderCompass.magnetometerData st) <= 360 /\
  -360 <= TransponderCompass.compassRotation st <= 0.
Proof.
  unfold TransponderCompass.compassRotation,
    TransponderCompass.compensatedHeading,
    TransponderCompass.pitch, TransponderCompass.roll.
  set (acc := TransponderCompass.accelerometerData st).
  set (mag := TransponderCompass.magnetometerData st).
  pose proof (atan2_degrees_bound (sy acc) (sz acc)) as Hp.
  pose proof (atan2_degrees_bound (sx acc) (sz acc)) as Hr.
  pose proof (atan2_degrees_bound (- TransponderCompass.magX acc mag)
                (TransponderCompass.magY acc mag)) as Hb.
  assert (0 <= normalize360
                 (JS.atan2 (- TransponderCompass.magX acc mag)
                    (TransponderCompass.magY acc mag) * (180 / PI))
          < 360) as Hn by (apply normalize360_one_turn; lra).
  repeat split; lra.
Qed.

(** X2: with the device lying flat, screen up (accelerometer (0, 0, g)
    with g > 0), pitch and roll are 0 and the tilt-compensated heading is
    the raw heading of the magnetometer listener. *)
Theorem flat_device_compensation_is_identity (g : R) (mag : SensorData) :
  0 < g ->
  TransponderCompass.pitch (mkSensorData 0 0 g) = 0 /\
  TransponderCompass.roll (mkSensorData 0 0 g) = 0 /\
  TransponderCompass.compensatedHeading (mkSensorData 0 0 g) mag
  = TransponderCompass.magneticAngle mag.
Proof.
  intros Hg.
  destruct (flat_is_level g Hg) as [Hp Hr].
  split; [exact Hp | split; [exact Hr | ]].
  unfold TransponderCompass.compensatedHeading, TransponderCompass.magneticAngle.
  rewrite (level_magX _ mag Hp), (level_magY _ mag Hp Hr).
  reflexivity.
Qed.

Lemma flat_device_compensation_is_identity_witness :
  TransponderCompass.pitch (mkSensorData 0 0 1) = 0 /\
  TransponderCompass.roll (mkSensorData 0 0 1) = 0 /\
  TransponderCompass.compensatedHeading
    (mkSensorData 0 0 1) (mkSensorData 1 2 3)
  = TransponderCompass.magneticAngle (mkSensorData 1 2 3).
Proof.
  apply (flat_device_compensation_is_identity 1 (mkSensorData 1 2 3)). lra.
Defined.

(** X4: the headings depend on the direction of the samples only: scaling
    the magnetometer sample, or the accelerometer sample, by a positive
    factor changes neither the raw nor the tilt-compensated heading. *)
Theorem headings_ignore_sample_magnitude (k : R) (acc mag : SensorData) :
  0 < k ->
  TransponderCompass.magneticAngle
    (mkSensorData (k * sx mag) (k * sy mag) (k * sz mag))
  = TransponderCompass.magneticAngle mag /\
  TransponderCompass.compensatedHeading acc
    (mkSensorData (k * sx mag) (k * sy mag) (k * sz mag))
  = TransponderCompass.compensatedHeading acc mag /\
  TransponderCompass.compensatedHeading
    (mkSensorData (k * sx acc) (k * sy acc) (k * sz acc)) mag
  = TransponderCompass.compensatedHeading acc mag.
Proof.
  intros Hk.
  split; [ | split].
  - unfold TransponderCompass.magneticAngle; simpl.
    replace (- (k * sx mag)) with (k * - sx mag) by ring.
    rewrite atan2_scale by exact Hk. reflexivity.
  - unfold TransponderCompass.compensatedHeading.
    unfold TransponderCompass.magX, TransponderCompass.magY; cbv zeta; simpl.
    match goal with
    | |- normalize360 (JS.atan2 ?a ?b * _) = normalize360 (JS.atan2 ?c ?d * _) =>
        replace a with (k * c) by ring; replace b with (k * d) by ring
    end.
    rewrite atan2_scale by exact Hk. reflexivity.
  - unfold TransponderCompass.compensatedHeading.
    unfold TransponderCompass.magX, TransponderCompass.magY,
      TransponderCompass.pitch, TransponderCompass.roll; cbv zeta; simpl.
    rewrite !atan2_scale by exact Hk. reflexivity.
Qed.

Lemma headings_ignore_sample_magnitude_witness :
  TransponderCompass.magneticAngle
    (mkSensorData (2 * 3) (2 * 4) (2 * 5))
  = TransponderCompass.magneticAngle (mkSensorData 3 4 5).
Proof.
  apply (proj1 (headings_ignore_sample_magnitude 2
                  (mkSensorData 0 0 1) (mkSensorData 3 4 5) ltac:(lra))).
Defined.

(** X5: the raw heading reads 0 when the field lies along the device's +Y
    axis, 90 along -X, 180 along -Y and 270 along +X, whatever the field's
    strength and its Z component. *)
Theorem magneticAngle_cardinal_points (m z : R) :
  0 < m ->
  TransponderCompass.magneticAngle (mkSensorData 0 m z) = 0 /\
  TransponderCompass.magneticAngle (mkSensorData (- m) 0 z) = 90 /\
  TransponderCompass.magneticAngle (mkSensorData 0 (- m) z) = 180 /\
  TransponderCompass.magneticAngle (mkSensorData m 0 z) = 270.
Proof.
  intros Hm. pose proof PI_RGT_0 as HPI.
  unfold TransponderCompass.magneticAngle; simpl.
  replace (- 0) with 0 by ring. replace (- - m) with m by ring.
  rewrite (atan2_0_pos m) by exact Hm.
  rewrite (atan2_pos_0 m) by exact Hm.
  rewrite (atan2_0_neg (- m)) by lra.
  rewrite (atan2_neg_0 (- m)) by lra.
  replace (0 * (180 / PI)) with 0 by ring.
  replace (PI / 2 * (180 / PI)) with 90 by (field; lra).
  replace (PI * (180 / PI)) with 180 by (field; lra).
  replace (- (PI / 2) * (180 / PI)) with (-90) by (field; lra).
  rewrite !normalize360_fixed by lra.
  rewrite normalize360_shift by lra.
  repeat split; lra.
Qed.

Lemma magneticAngle_cardinal_points_witness :
  TransponderCompass.magneticAngle (mkSensorData 0 30 (-40)) = 0 /\
  TransponderCompass.magneticAngle (mkSensorData (- 30) 0 (-40)) = 90 /\
  TransponderCompass.magneticAngle (mkSensorData 0 (- 30) (-40)) = 180 /\
  TransponderCompass.magneticAngle (mkSensorData 30 0 (-40)) = 270.
Proof.
  apply (magneticAngle_cardinal_points 30 (-40)). lra.
Defined.

(** ** More on bearing and distance *)

Section RouteFacts.

Import GPSDirectionalArrow.

(** When the haversine term is the squared sine of a half angle in the
    first quarter turn, the distance is the radius times the full angle. *)
Lemma calculatedDistance_of_half_angle (p q : Coords) (h : R) :
  0 <= h <= PI / 2 ->
  haversine_a p q = sin h * sin h ->
  calculatedDistance p q = Some (earthRadius * (2 * h)).
Proof.
  intros Hh Ha.
  pose proof (sin_sqr_unit h) as [Hlo Hhi].
  unfold calculatedDistance; cbv zeta. rewrite Ha.
  rewrite (sqrt_defined (sin h * sin h)) by exact Hlo.
  rewrite (sqrt_defined (1 - sin h * sin h)) by lra.
  rewrite haversine_angle by exact Hh. reflexivity.
Qed.

Lemma sin_sqr_abs (x : R) : sin x * sin x = sin (Rabs x) * sin (Rabs x).
Proof.
  unfold Rabs. destruct (Rcase_abs x); [ | reflexivity].
  rewrite sin_neg. ring.
Qed.

Lemma haversine_a_meridian (p q : Coords) :
  longitude p = longitude q ->
  haversine_a p q
  = sin (Rabs (latitude q - latitude p) * PI / 360)
    * sin (Rabs (latitude q - latitude p) * PI / 360).
Proof.
  intros Hlon. pose proof PI_RGT_0 as HPI.
  unfold haversine_a; cbv zeta. rewrite Hlon.
  replace ((longitude q - longitude q) * PI / 180 / 2) with 0 by lra.
  rewrite sin_0.
  rewrite (sin_sqr_abs ((latitude q - latitude p) * PI / 180 / 2)).
  replace (Rabs ((latitude q - latitude p) * PI / 180 / 2))
    with (Rabs (latitude q - latitude p) * PI / 360).
  - ring.
  - unfold Rabs.
    destruct (Rcase_abs (latitude q - latitude p)),
             (Rcase_abs ((latitude q - latitude p) * PI / 180 / 2));
      try lra; exfalso; nra.
Qed.

Lemma haversine_a_equator (p q : Coords) :
  latitude p = 0 -> latitude q = 0 ->
  haversine_a p q
  = sin (Rabs (longitude q - longitude p) * PI / 360)
    * sin (Rabs (longitude q - longitude p) * PI / 360).
Proof.
  intros Hp Hq. pose proof PI_RGT_0 as HPI.
  unfold haversine_a; cbv zeta. rewrite Hp, Hq.
  replace ((0 - 0) * PI / 180 / 2) with 0 by lra.
  replace (0 * PI / 180) with 0 by lra.
  rewrite sin_0, cos_0.
  pose proof (sin_sqr_abs ((longitude q - longitude p) * PI / 180 / 2)) as E.
  replace (Rabs ((longitude q - longitude p) * PI / 180 / 2))
    with (Rabs (longitude q - longitude p) * PI / 360) in E.
  - rewrite <- E. ring.
  - unfold Rabs.
    destruct (Rcase_abs (longitude q - longitude p)),
             (Rcase_abs ((longitude q - longitude p) * PI / 180 / 2));
      try lra; exfalso; nra.
Qed.

(** The bearing, once the angle of the [atan2] step is known. *)
Lemma calculatedBearing_of_angle (p q : Coords) (deg : R) :
  JS.atan2
    (sin ((longitude q - longitude p) * PI / 180) * cos (latitude q * PI / 180))
    (cos (latitude p * PI / 180) * sin (latitude q * PI / 180)
     - sin (latitude p * PI / 180) * cos (latitude q * PI / 180)
       * cos ((longitude q - longitude p) * PI / 180))
  = deg * PI / 180 ->
  calculatedBearing p q = JS.rem (deg + 360) 360.
Proof.
  intros E. pose proof PI_RGT_0 as HPI.
  unfold calculatedBearing; cbv zeta. rewrite E.
  f_equal. field. lra.
Qed.

(** A distance that is a number lies between 0 and half the
    circumference, for all coordinates. *)
Lemma calculatedDistance_when_number (p q : Coords) (d : R) :
  calculatedDistance p q = Some d -> 0 <= d <= PI * earthRadius.
Proof.
  unfold calculatedDistance, JS.sqrt; cbv zeta.
  destruct (Rlt_dec (haversine_a p q) 0); [discriminate | ].
  destruct (Rlt_dec (1 - haversine_a p q) 0); [discriminate | ].
  intros E. injection E as <-.
  pose proof (atan2_first_quadrant
                (sqrt (haversine_a p q)) (sqrt (1 - haversine_a p q))
                (sqrt_pos _) (sqrt_pos _)) as [Hlo Hhi].
  unfold earthRadius. split; nra.
Qed.

End RouteFacts.

(** X6: for all coordinates, in range or not, a distance that is a
    number (not [NaN]) lies between 0 and half the circumference of the
    sphere, [PI * earthRadius]. *)
Theorem calculatedDistance_at_most_half_circumference
  (fromLocation toLocation : GPSDirectionalArrow.Coords) :
  match GPSDirectionalArrow.distance
          (GPSDirectionalArrow.calculateNavigationData fromLocation toLocation)
  with
  | Some d => 0 <= d <= PI * GPSDirectionalArrow.earthRadius
  | None => True
  end.
Proof.
  simpl.
  destruct (GPSDirectionalArrow.calculatedDistance fromLocation toLocation)
    as [d | ] eqn:E;
    [exact (calculatedDistance_when_number _ _ d E) | exact I].
Qed.

(** X7: between two positions of the same longitude, with latitudes in
    range, the distance is the radius times the difference of latitude in
    radians. *)
Theorem calculatedDistance_along_meridian
  (fromLocation toLocation : GPSDirectionalArrow.Coords) :
  -90 <= GPSDirectionalArrow.latitude fromLocation <= 90 ->
  -90 <= GPSDirectionalArrow.latitude toLocation <= 90 ->
  GPSDirectionalArrow.longitude fromLocation
  = GPSDirectionalArrow.longitude toLocation ->
  GPSDirectionalArrow.distance
    (GPSDirectionalArrow.calculateNavigationData fromLocation toLocation)
  = Some (GPSDirectionalArrow.earthRadius
          * (Rabs (GPSDirectionalArrow.latitude toLocation
                   - GPSDirectionalArrow.latitude fromLocation) * PI / 180)).
Proof.
  intros Hp Hq Hlon. simpl. pose proof PI_RGT_0 as HPI.
  set (D := Rabs (GPSDirectionalArrow.latitude toLocation
                  - GPSDirectionalArrow.latitude fromLocation)).
  assert (0 <= D <= 180) as HD.
  { unfold D. split; [apply Rabs_pos | apply Rabs_le; lra]. }
  rewrite (calculatedDistance_of_half_angle fromLocation toLocation
             (D * PI / 360)).
  - f_equal. lra.
  - split; nra.
  - apply haversine_a_meridian; exact Hlon.
Qed.

Lemma calculatedDistance_along_meridian_witness :
  GPSDirectionalArrow.distance
    (GPSDirectionalArrow.calculateNavigationData
       GPSDirectionalArrow.targetLocation
       (GPSDirectionalArrow.mkCoords 37.7849 (-122.4194)))
  = Some (GPSDirectionalArrow.earthRadius
          * (Rabs (37.7849 - 37.7749) * PI / 180)).
Proof.
  apply (calculatedDistance_along_meridian
           GPSDirectionalArrow.targetLocation
           (GPSDirectionalArrow.mkCoords 37.7849 (-122.4194)));
    simpl; try lra; reflexivity.
Defined.

(** X8: between two positions of the same longitude, with latitudes in
    range, the bearing is 0 when the target is further north, and 180 when
    the target is further south by less than 180 degrees (that is, not
    from the north pole to the south pole). *)
Theorem calculatedBearing_along_meridian
  (fromLocation toLocation : GPSDirectionalArrow.Coords) :
  -90 <= GPSDirectionalArrow.latitude fromLocation <= 90 ->
  -90 <= GPSDirectionalArrow.latitude toLocation <= 90 ->
  GPSDirectionalArrow.longitude fromLocation
  = GPSDirectionalArrow.longitude toLocation ->
  (GPSDirectionalArrow.latitude fromLocation
   < GPSDirectionalArrow.latitude toLocation ->
   GPSDirectionalArrow.bearing
     (GPSDirectionalArrow.calculateNavigationData fromLocation toLocation)
   = 0) /\
  (-180 < GPSDirectionalArrow.latitude toLocation
          - GPSDirectionalArrow.latitude fromLocation < 0 ->
   GPSDirectionalArrow.bearing
     (GPSDirectionalArrow.calculateNavigationData fromLocation toLocation)
   = 180).
Proof.
  intros Hp Hq Hlon. simpl. pose proof PI_RGT_0 as HPI.
  set (p1 := GPSDirectionalArrow.latitude fromLocation * PI / 180).
  set (p2 := GPSDirectionalArrow.latitude toLocation * PI / 180).
  assert (forall deg,
            JS.atan2 0 (sin (p2 - p1)) = deg * PI / 180 ->
            GPSDirectionalArrow.calculatedBearing fromLocation toLocation
            = JS.rem (deg + 360) 360) as Hstep.
  { intros deg E. apply calculatedBearing_of_angle.
    rewrite Hlon.
    replace ((GPSDirectionalArrow.longitude toLocation
              - GPSDirectionalArrow.longitude toLocation) * PI / 180)
      with 0 by lra.
    rewrite sin_0, cos_0. fold p1 p2.
    replace (0 * cos p2) with 0 by ring.
    replace (cos p1 * sin p2 - sin p1 * cos p2 * 1) with (sin (p2 - p1))
      by (rewrite sin_minus; ring).
    exact E. }
  split.
  - intros Hn.
    assert (0 < p2 - p1 <= PI) as [Hlo Hhi] by (unfold p1, p2; split; nra).
    rewrite (Hstep 0).
    + replace (0 + 360) with 360 by lra. rewrite rem_once; lra.
    + destruct Hhi as [Hlt | Heq].
      * rewrite atan2_0_pos by (apply sin_gt_0; lra). lra.
      * rewrite Heq, sin_PI, atan2_0_0. lra.
  - intros Hs.
    assert (- PI < p2 - p1 < 0) as [Hlo Hhi] by (unfold p1, p2; split; nra).
    rewrite (Hstep 180).
    + replace (180 + 360) with 540 by lra. rewrite rem_once; lra.
    + rewrite atan2_0_neg by (apply sin_lt_0_var; lra). lra.
Qed.

Lemma calculatedBearing_along_meridian_witness :
  GPSDirectionalArrow.bearing
    (GPSDirectionalArrow.calculateNavigationData
       GPSDirectionalArrow.targetLocation
       (GPSDirectionalArrow.mkCoords 37.7849 (-122.4194))) = 0.
Proof.
  apply (proj1 (calculatedBearing_along_meridian
                  GPSDirectionalArrow.targetLocation
                  (GPSDirectionalArrow.mkCoords 37.7849 (-122.4194))
                  ltac:(simpl; lra) ltac:(simpl; lra) eq_refl)).
  simpl; lra.
Defined.

(** X9: between two positions on the equator, with longitudes in range,
    the distance is the radius times the shorter of the two longitude
    differences, in radians; antipodal positions are [PI * earthRadius]
    apart. *)
Theorem calculatedDistance_along_equator
  (fromLocation toLocation : GPSDirectionalArrow.Coords) :
  GPSDirectionalArrow.latitude fromLocation = 0 ->
  GPSDirectionalArrow.latitude toLocation = 0 ->
  -180 <= GPSDirectionalArrow.longitude fromLocation <= 180 ->
  -180 <= GPSDirectionalArrow.longitude toLocation <= 180 ->
  GPSDirectionalArrow.distance
    (GPSDirectionalArrow.calculateNavigationData fromLocation toLocation)
  = Some (GPSDirectionalArrow.earthRadius
          * (Rmin (Rabs (GPSDirectionalArrow.longitude toLocation
                         - GPSDirectionalArrow.longitude fromLocation))
                  (360 - Rabs (GPSDirectionalArrow.longitude toLocation
                               - GPSDirectionalArrow.longitude fromLocation))
             * PI / 180)).
Proof.
  intros Hp Hq Hlp Hlq. simpl. pose proof PI_RGT_0 as HPI.
  pose proof (haversine_a_equator fromLocation toLocation Hp Hq) as Ha.
  set (D := Rabs (GPSDirectionalArrow.longitude toLocation
                  - GPSDirectionalArrow.longitude fromLocation)) in *.
  assert (0 <= D <= 360) as HD.
  { unfold D. split; [apply Rabs_pos | apply Rabs_le; lra]. }
  destruct (Rle_dec D 180) as [Hnear | Hfar].
  - rewrite Rmin_left by lra.
    rewrite (calculatedDistance_of_half_angle fromLocation toLocation
               (D * PI / 360)).
    + f_equal. lra.
    + split; nra.
    + exact Ha.
  - rewrite Rmin_right by lra.
    rewrite (calculatedDistance_of_half_angle fromLocation toLocation
               ((360 - D) * PI / 360)).
    + f_equal. lra.
    + split; nra.
    + rewrite Ha.
      replace ((360 - D) * PI / 360) with (PI - D * PI / 360) by lra.
      rewrite sin_PI_x. reflexivity.
Qed.

Lemma calculatedDistance_along_equator_witness :
  GPSDirectionalArrow.distance
    (GPSDirectionalArrow.calculateNavigationData
       (GPSDirectionalArrow.mkCoords 0 (-170))
       (GPSDirectionalArrow.mkCoords 0 170))
  = Some (GPSDirectionalArrow.earthRadius
          * (Rmin (Rabs (170 - -170)) (360 - Rabs (170 - -170)) * PI / 180)).
Proof.
  apply (calculatedDistance_along_equator
           (GPSDirectionalArrow.mkCoords 0 (-170))
           (GPSDirectionalArrow.mkCoords 0 170));
    simpl; try lra; reflexivity.
Defined.

(** X10: between two positions on the equator the bearing points the
    shorter way round: 90 when the target is less than half a turn to the
    east, 270 when it is less than half a turn to the west, also across
    the antimeridian. *)
Theorem calculatedBearing_along_equator
  (fromLocation toLocation : GPSDirectionalArrow.Coords) :
  GPSDirectionalArrow.latitude fromLocation = 0 ->
  GPSDirectionalArrow.latitude toLocation = 0 ->
  ((0 < GPSDirectionalArrow.longitude toLocation
        - GPSDirectionalArrow.longitude fromLocation < 180 \/
    -360 < GPSDirectionalArrow.longitude toLocation
           - GPSDirectionalArrow.longitude fromLocation < -180) ->
   GPSDirectionalArrow.bearing
     (GPSDirectionalArrow.calculateNavigationData fromLocation toLocation)
   = 90) /\
  ((-180 < GPSDirectionalArrow.longitude toLocation
           - GPSDirectionalArrow.longitude fromLocation < 0 \/
    180 < GPSDirectionalArrow.longitude toLocation
          - GPSDirectionalArrow.longitude fromLocation < 360) ->
   GPSDirectionalArrow.bearing
     (GPSDirectionalArrow.calculateNavigationData fromLocation toLocation)
   = 270).
Proof.
  intros Hp Hq. simpl. pose proof PI_RGT_0 as HPI.
  set (dl := (GPSDirectionalArrow.longitude toLocation
              - GPSDirectionalArrow.longitude fromLocation) * PI / 180).
  assert (forall deg,
            JS.atan2 (sin dl) 0 = deg * PI / 180 ->
            GPSDirectionalArrow.calculatedBearing fromLocation toLocation
            = JS.rem (deg + 360) 360) as Hstep.
  { intros deg E. apply calculatedBearing_of_angle.
    rewrite Hp, Hq. fold dl.
    replace (0 * PI / 180) with 0 by lra.
    rewrite sin_0, cos_0.
    replace (sin dl * 1) with (sin dl) by ring.
    replace (1 * 0 - 0 * 1 * cos dl) with 0 by ring.
    exact E. }
  split.
  - intros Heast.
    assert (0 < sin dl) as Hs.
    { destruct Heast as [H | H].
      - apply sin_gt_0; unfold dl; nra.
      - rewrite <- (sin_add_turn dl). apply sin_gt_0; unfold dl; nra. }
    rewrite (Hstep 90).
    + replace (90 + 360) with 450 by lra. rewrite rem_once; lra.
    + rewrite atan2_pos_0 by exact Hs. lra.
  - intros Hwest.
    assert (sin dl < 0) as Hs.
    { destruct Hwest as [H | H].
      - apply sin_lt_0_var; unfold dl; nra.
      - apply sin_lt_0; unfold dl; nra. }
    rewrite (Hstep (-90)).
    + replace (-90 + 360) with 270 by lra. rewrite rem_below; lra.
    + rewrite atan2_neg_0 by exact Hs. lra.
Qed.

Lemma calculatedBearing_along_equator_witness :
  GPSDirectionalArrow.bearing
    (GPSDirectionalArrow.calculateNavigationData
       (GPSDirectionalArrow.mkCoords 0 170)
       (GPSDirectionalArrow.mkCoords 0 (-170))) = 90.
Proof.
  apply (proj1 (calculatedBearing_along_equator
                  (GPSDirectionalArrow.mkCoords 0 170)
                  (GPSDirectionalArrow.mkCoords 0 (-170)) eq_refl eq_refl)).
  right; simpl; lra.
Defined.

(** ** Sequences of sensor deliveries *)

Section CompassTrace.

Import TransponderCompass.

Lemma run_snoc (st : State) (evs : list Event) (ev : Event) :
  run st (evs ++ [ev]) = step (run st evs) ev.
Proof. unfold run. rewrite fold_left_app. reflexivity. Qed.

Lemma magneticAngle_zero_sample :
  magneticAngle (mkSensorData 0 0 0) = 0.
Proof.
  unfold magneticAngle; simpl.
  replace (- 0) with 0 by ring.
  rewrite atan2_0_0. replace (0 * (180 / PI)) with 0 by ring.
  apply normalize360_fixed. lra.
Qed.

Lemma magneticAngle_range (data : SensorData) :
  0 <= magneticAngle data < 360.
Proof.
  unfold magneticAngle.
  pose proof (atan2_degrees_bound (- sx data) (sy data)).
  apply normalize360_one_turn. lra.
Qed.

End CompassTrace.

(** X11: on the compass screen, after any sequence of magnetometer,
    accelerometer and availability deliveries from the initial state, the
    raw heading cell is the heading of the stored magnetometer sample and
    lies in [0, 360], ends included. *)
Theorem compass_heading_follows_stored_sample
  (evs : list TransponderCompass.Event) :
  let st := TransponderCompass.run TransponderCompass.initial evs in
  TransponderCompass.heading st
  = TransponderCompass.magneticAngle (TransponderCompass.magnetometerData st) /\
  0 <= TransponderCompass.heading st <= 360.
Proof.
  cbv zeta.
  induction evs as [ | ev evs IH] using rev_ind.
  - simpl. rewrite magneticAngle_zero_sample. split; [reflexivity | lra].
  - rewrite run_snoc.
    destruct ev as [data | data | b]; simpl.
    + split; [reflexivity | ].
      pose proof (magneticAngle_range data). lra.
    + exact IH.
    + exact IH.
Qed.

Section WaypointTrace.

Import GPSDirectionalArrow.

Lemma waypoint_run_snoc (st : State) (evs : list Event) (ev : Event) :
  run st (evs ++ [ev]) = step (run st evs) ev.
Proof. unfold run. rewrite fold_left_app. reflexivity. Qed.

Lemma lastLocation_snoc (evs : list Event) (ev : Event) :
  lastLocation (evs ++ [ev])
  = match ev with
    | LocationUpdate coords => Some coords
    | _ => lastLocation evs
    end.
Proof. unfold lastLocation. rewrite fold_left_app. reflexivity. Qed.

(** The location cell and the loading flag after a sequence. *)
Lemma run_location_cells (evs : list Event) :
  currentLocation (run initial evs) = lastLocation evs /\
  loading (run initial evs)
  = match lastLocation evs with Some _ => false | None => true end.
Proof.
  induction evs as [ | ev evs [IHc IHl]] using rev_ind.
  - split; reflexivity.
  - rewrite waypoint_run_snoc, lastLocation_snoc.
    destruct ev as [coords | h | data]; simpl; split;
      try reflexivity; assumption.
Qed.

Lemma lastLocation_none (evs : list Event) :
  lastLocation evs = None <-> (forall coords, ~ In (LocationUpdate coords) evs).
Proof.
  induction evs as [ | ev evs IH] using rev_ind.
  - split; [intros _ coords [] | reflexivity].
  - rewrite lastLocation_snoc. split.
    + intros H coords Hin.
      apply in_app_or in Hin. destruct Hin as [Hin | [Heq | []]].
      * destruct ev; try discriminate; exact (proj1 IH H coords Hin).
      * subst ev. discriminate.
    + intros H. destruct ev as [coords | h | data].
      * exfalso. apply (H coords). apply in_or_app. right. left. reflexivity.
      * apply IH. intros c Hin. apply (H c). apply in_or_app. left. exact Hin.
      * apply IH. intros c Hin. apply (H c). apply in_or_app. left. exact Hin.
Qed.

(** A difference within one turn and a half is wrapped into the closed
    half turn. *)
Lemma shortestDelta_in_range (a b : R) :
  -540 <= a - b <= 540 -> -180 <= shortestDelta a b <= 180.
Proof.
  intros H. unfold shortestDelta.
  destruct (Rlt_dec 180 (a - b)); [lra | ].
  destruct (Rlt_dec (a - b) (-180)); lra.
Qed.

Lemma run_bearing_range (evs : list Event) :
  0 <= stBearing (run initial evs) < 360.
Proof.
  induction evs as [ | ev evs IH] using rev_ind.
  - simpl. lra.
  - rewrite waypoint_run_snoc.
    destruct ev as [c | h | data]; simpl.
    + apply calculatedBearing_range.
    + exact IH.
    + exact IH.
Qed.

End WaypointTrace.

(** X12: on the waypoint screen no rotation is handed to the animation
    until a location update has been delivered, whatever heading and
    magnetometer deliveries arrive, and one is handed over after every
    sequence that contains a location update. *)
Theorem arrow_waits_for_first_location
  (evs : list GPSDirectionalArrow.Event) :
  GPSDirectionalArrow.arrowDirection
    (GPSDirectionalArrow.run GPSDirectionalArrow.initial evs) = None
  <-> (forall coords, ~ In (GPSDirectionalArrow.LocationUpdate coords) evs).
Proof.
  rewrite <- lastLocation_none.
  destruct (run_location_cells evs) as [Hc Hl].
  unfold GPSDirectionalArrow.arrowDirection. rewrite Hc, Hl.
  destruct (GPSDirectionalArrow.lastLocation evs); split;
    intros H; try reflexivity; discriminate.
Qed.

(** X13: after any sequence of deliveries the bearing and distance cells
    are those of the latest location update against the fixed target;
    heading and magnetometer deliveries in between do not disturb them. *)
Theorem navigation_cells_follow_last_location
  (evs : list GPSDirectionalArrow.Event) (coords : GPSDirectionalArrow.Coords) :
  GPSDirectionalArrow.lastLocation evs = Some coords ->
  let st := GPSDirectionalArrow.run GPSDirectionalArrow.initial evs in
  GPSDirectionalArrow.currentLocation st = Some coords /\
  GPSDirectionalArrow.stBearing st
  = GPSDirectionalArrow.bearing
      (GPSDirectionalArrow.calculateNavigationData
         coords GPSDirectionalArrow.targetLocation) /\
  GPSDirectionalArrow.stDistance st
  = GPSDirectionalArrow.distance
      (GPSDirectionalArrow.calculateNavigationData
         coords GPSDirectionalArrow.targetLocation).
Proof.
  cbv zeta. revert coords.
  induction evs as [ | ev evs IH] using rev_ind; intros coords Hlast.
  - discriminate.
  - rewrite lastLocation_snoc in Hlast. rewrite waypoint_run_snoc.
    destruct ev as [c | h | data]; simpl.
    + injection Hlast as ->. repeat split.
    + exact (IH coords Hlast).
    + exact (IH coords Hlast).
Qed.

Lemma navigation_cells_follow_last_location_witness :
  GPSDirectionalArrow.stBearing
    (GPSDirectionalArrow.run GPSDirectionalArrow.initial
       [GPSDirectionalArrow.LocationUpdate (GPSDirectionalArrow.mkCoords 0 0);
        GPSDirectionalArrow.HeadingUpdate (GPSDirectionalArrow.mkHeading (-1) 87)])
  = GPSDirectionalArrow.bearing
      (GPSDirectionalArrow.calculateNavigationData
         (GPSDirectionalArrow.mkCoords 0 0) GPSDirectionalArrow.targetLocation).
Proof.
  apply (navigation_cells_follow_last_location
           [GPSDirectionalArrow.LocationUpdate (GPSDirectionalArrow.mkCoords 0 0);
            GPSDirectionalArrow.HeadingUpdate
              (GPSDirectionalArrow.mkHeading (-1) 87)]
           (GPSDirectionalArrow.mkCoords 0 0) eq_refl).
Defined.

(** X14: after any sequence of deliveries the bearing cell is in
    [0, 360), and the distance cell is [NaN] or a number between 0 and
    [PI * earthRadius], whatever coordinates the location updates
    carried. *)
Theorem navigation_cells_stay_in_range
  (evs : list GPSDirectionalArrow.Event) :
  let st := GPSDirectionalArrow.run GPSDirectionalArrow.initial evs in
  0 <= GPSDirectionalArrow.stBearing st < 360 /\
  match GPSDirectionalArrow.stDistance st with
  | Some d => 0 <= d <= PI * GPSDirectionalArrow.earthRadius
  | None => True
  end.
Proof.
  cbv zeta.
  split; [apply run_bearing_range | ].
  induction evs as [ | ev evs IH] using rev_ind.
  - simpl. pose proof PI_RGT_0.
    unfold GPSDirectionalArrow.earthRadius. nra.
  - rewrite waypoint_run_snoc.
    destruct ev as [c | h | data]; simpl; try exact IH.
    destruct (GPSDirectionalArrow.calculatedDistance
                c GPSDirectionalArrow.targetLocation) as [d | ] eqn:E;
      [exact (calculatedDistance_when_number _ _ d E) | exact I].
Qed.

(** X15: the wraparound is applied once: the rotation lies in
    [-180, 180] exactly when bearing and heading differ by at most a turn
    and a half. *)
Theorem shortestDelta_in_range_iff (a b : R) :
  -180 <= shortestDelta a b <= 180 <-> -540 <= a - b <= 540.
Proof.
  split; [ | apply shortestDelta_in_range].
  unfold shortestDelta.
  destruct (Rlt_dec 180 (a - b)); [lra | ].
  destruct (Rlt_dec (a - b) (-180)); lra.
Qed.

(** X16: when every heading delivery carries fields in [-1, 360], the
    rotation handed to the animation after any sequence of deliveries lies
    in the animation's input range [-180, 180]. *)
Theorem arrow_rotation_within_input_range
  (evs : list GPSDirectionalArrow.Event) (r : R) :
  (forall h, In (GPSDirectionalArrow.HeadingUpdate h) evs ->
             -1 <= GPSDirectionalArrow.trueHeading h <= 360 /\
             -1 <= GPSDirectionalArrow.magHeading h <= 360) ->
  GPSDirectionalArrow.arrowDirection
    (GPSDirectionalArrow.run GPSDirectionalArrow.initial evs) = Some r ->
  -180 <= r <= 180.
Proof.
  intros Hh Hr.
  assert (-1 <= GPSDirectionalArrow.compassHeading
                  (GPSDirectionalArrow.run GPSDirectionalArrow.initial evs)
          <= 360) as Hc.
  { clear Hr r.
    induction evs as [ | ev evs IH] using rev_ind.
    - simpl. lra.
    - rewrite waypoint_run_snoc.
      assert (forall h, In (GPSDirectionalArrow.HeadingUpdate h) evs ->
                -1 <= GPSDirectionalArrow.trueHeading h <= 360 /\
                -1 <= GPSDirectionalArrow.magHeading h <= 360) as Hh'.
      { intros h Hin. apply Hh. apply in_or_app. left. exact Hin. }
      specialize (IH Hh').
      destruct ev as [c | h | data]; simpl.
      + exact IH.
      + destruct (Hh h) as [Ht Hm].
        { apply in_or_app. right. left. reflexivity. }
        unfold GPSDirectionalArrow.headingValue.
        destruct (Req_dec_T (GPSDirectionalArrow.trueHeading h) (-1));
          assumption.
      + unfold GPSDirectionalArrow.magneticHeading.
        pose proof (atan2_degrees_bound (- sx data) (sy data)).
        pose proof (normalize360_one_turn
                      (JS.atan2 (- sx data) (sy data) * (180 / PI))).
        lra. }
  pose proof (run_bearing_range evs) as Hb.
  unfold GPSDirectionalArrow.arrowDirection in Hr.
  destruct (GPSDirectionalArrow.currentLocation _); [ | discriminate].
  destruct (GPSDirectionalArrow.loading _); [discriminate | ].
  injection Hr as <-.
  apply shortestDelta_in_range. lra.
Qed.

(** ** The start-up sequence of the waypoint screen *)

Section StartUp.

Import GPSDirectionalArrow.

(** Every way the sequence can end. *)
Lemma initialize_cases (pf : Platform) :
  (exists message shown,
     initialize pf = mkSetup (Some message) true shown false false false None) \/
  (exists message,
     watchPositionAsync pf = Rejected message /\
     initialize pf
     = mkSetup (Some ("Failed to start location tracking: " ++ message)%string)
               true [] false false false None) \/
  ((exists value, watchHeadingAsync pf = Resolved value) /\
   initialize pf = mkSetup None false [] true true false None) \/
  ((exists message, watchHeadingAsync pf = Rejected message) /\
   magnetometerIsAvailableAsync pf = Resolved true /\
   initialize pf = mkSetup None false [] true false true (Some 200%Z)) \/
  ((exists message, watchHeadingAsync pf = Rejected message) /\
   magnetometerIsAvailableAsync pf <> Resolved true /\
   initialize pf = mkSetup None false [] true false false None).
Proof.
  destruct pf as [services permission magPermission position heading available].
  unfold initialize, requestPermissions, permissionFailure; simpl.
  destruct services as [[ | ] | m]; simpl;
    try (left; eexists; eexists; reflexivity).
  destruct permission as [status | m]; simpl;
    try (left; eexists; eexists; reflexivity).
  destruct (String.eqb status "granted"); simpl;
    try (left; eexists; eexists; reflexivity).
  destruct magPermission as [u0 | m0]; simpl;
    unfold startLocationTracking, startMagnetometerFallback; simpl;
    (destruct position as [u | m]; simpl;
     [ destruct heading as [v | m]; simpl;
       [ right; right; left; split; [eexists; reflexivity | reflexivity]
       | destruct available as [[ | ] | m']; simpl;
         [ right; right; right; left;
           split; [eexists; reflexivity | split; reflexivity]
         | right; right; right; right;
           split; [eexists; reflexivity | split; [discriminate | reflexivity]]
         | right; right; right; right;
           split; [eexists; reflexivity | split; [discriminate | reflexivity]]
         ] ]
     | right; left; eexists; split; reflexivity ]).
Qed.

End StartUp.

(** X17: the start-up sequence never leaves both the heading subscription
    and the magnetometer fallback active, and a heading source is only ever
    active together with the location subscription and without an error. *)
Theorem heading_sources_are_exclusive (pf : GPSDirectionalArrow.Platform) :
  let su := GPSDirectionalArrow.initialize pf in
  (GPSDirectionalArrow.headingSubscription su = true ->
   GPSDirectionalArrow.magnetometerSubscription su = false) /\
  (GPSDirectionalArrow.headingSubscription su = true \/
   GPSDirectionalArrow.magnetometerSubscription su = true ->
   GPSDirectionalArrow.locationSubscription su = true /\
   GPSDirectionalArrow.error su = None).
Proof.
  cbv zeta.
  destruct (initialize_cases pf)
    as [[m [sh E]] | [[m [_ E]] | [[_ E] | [[_ [_ E]] | [_ [_ E]]]]]];
    rewrite E; simpl; split; intros H;
    try reflexivity; try (split; reflexivity);
    try discriminate; destruct H; discriminate.
Qed.

Lemma heading_sources_are_exclusive_witness :
  GPSDirectionalArrow.magnetometerSubscription
    (GPSDirectionalArrow.initialize
       (GPSDirectionalArrow.mkPlatform
          (GPSDirectionalArrow.Resolved true)
          (GPSDirectionalArrow.Resolved "granted"%string)
          (GPSDirectionalArrow.Resolved tt)
          (GPSDirectionalArrow.Resolved tt)
          (GPSDirectionalArrow.Resolved tt)
          (GPSDirectionalArrow.Resolved true))) = false.
Proof.
  apply (proj1 (heading_sources_are_exclusive
                  (GPSDirectionalArrow.mkPlatform
                     (GPSDirectionalArrow.Resolved true)
                     (GPSDirectionalArrow.Resolved "granted"%string)
                     (GPSDirectionalArrow.Resolved tt)
                     (GPSDirectionalArrow.Resolved tt)
                     (GPSDirectionalArrow.Resolved tt)
                     (GPSDirectionalArrow.Resolved true)))).
  reflexivity.
Defined.

(** X18: the start-up sequence ends without an error exactly when the
    location subscription is active; when it ends with an error,
    [setLoading(false)] has been called and no subscription is active. *)
Theorem startup_error_iff_no_location_subscription
  (pf : GPSDirectionalArrow.Platform) :
  let su := GPSDirectionalArrow.initialize pf in
  (GPSDirectionalArrow.error su = None
   <-> GPSDirectionalArrow.locationSubscription su = true) /\
  (GPSDirectionalArrow.error su <> None ->
   GPSDirectionalArrow.loadingCleared su = true /\
   GPSDirectionalArrow.locationSubscription su = false /\
   GPSDirectionalArrow.headingSubscription su = false /\
   GPSDirectionalArrow.magnetometerSubscription su = false).
Proof.
  cbv zeta.
  destruct (initialize_cases pf)
    as [[m [sh E]] | [[m [_ E]] | [[_ E] | [[_ [_ E]] | [_ [_ E]]]]]];
    rewrite E; simpl;
    (split; [split; intros H; try reflexivity; discriminate | ]);
    intros H; try (exfalso; apply H; reflexivity);
    repeat split.
Qed.

Lemma startup_error_iff_no_location_subscription_witness :
  GPSDirectionalArrow.loadingCleared
    (GPSDirectionalArrow.initialize
       (GPSDirectionalArrow.mkPlatform
          (GPSDirectionalArrow.Resolved false)
          (GPSDirectionalArrow.Resolved "granted"%string)
          (GPSDirectionalArrow.Resolved tt)
          (GPSDirectionalArrow.Resolved tt)
          (GPSDirectionalArrow.Resolved tt)
          (GPSDirectionalArrow.Resolved true))) = true.
Proof.
  apply (proj2 (startup_error_iff_no_location_subscription
                  (GPSDirectionalArrow.mkPlatform
                     (GPSDirectionalArrow.Resolved false)
                     (GPSDirectionalArrow.Resolved "granted"%string)
                     (GPSDirectionalArrow.Resolved tt)
                     (GPSDirectionalArrow.Resolved tt)
                     (GPSDirectionalArrow.Resolved tt)
                     (GPSDirectionalArrow.Resolved true)))).
  simpl. discriminate.
Defined.

(** X19: the answer to the magnetometer permission request has no
    influence on how the start-up sequence ends. *)
Theorem magnetometer_permission_is_optional
  (pf : GPSDirectionalArrow.Platform)
  (answer : GPSDirectionalArrow.Outcome unit) :
  GPSDirectionalArrow.initialize
    (GPSDirectionalArrow.mkPlatform
       (GPSDirectionalArrow.hasServicesEnabledAsync pf)
       (GPSDirectionalArrow.requestForegroundPermissionsAsync pf)
       answer
       (GPSDirectionalArrow.watchPositionAsync pf)
       (GPSDirectionalArrow.watchHeadingAsync pf)
       (GPSDirectionalArrow.magnetometerIsAvailableAsync pf))
  = GPSDirectionalArrow.initialize pf.
Proof.
  destruct pf as [services permission magPermission position heading available].
  unfold GPSDirectionalArrow.initialize, GPSDirectionalArrow.requestPermissions;
    simpl.
  destruct services as [[ | ] | m]; try reflexivity.
  destruct permission as [status | m]; try reflexivity.
  destruct (String.eqb status "granted"); try reflexivity.
  destruct answer, magPermission; reflexivity.
Qed.

(** X20: the magnetometer fallback is started exactly when the location
    subscription is active, the heading subscription was refused and the
    magnetometer is available, and then at an interval of 200 ms; the
    heading subscription is active exactly when the location subscription
    is and the heading subscription was accepted. *)
Theorem fallback_exactly_when_heading_refused
  (pf : GPSDirectionalArrow.Platform) :
  let su := GPSDirectionalArrow.initialize pf in
  (GPSDirectionalArrow.magnetometerSubscription su = true <->
   GPSDirectionalArrow.locationSubscription su = true /\
   (exists message,
      GPSDirectionalArrow.watchHeadingAsync pf
      = GPSDirectionalArrow.Rejected message) /\
   GPSDirectionalArrow.magnetometerIsAvailableAsync pf
   = GPSDirectionalArrow.Resolved true) /\
  (GPSDirectionalArrow.magnetometerSubscription su = true ->
   GPSDirectionalArrow.magnetometerInterval su = Some 200%Z) /\
  (GPSDirectionalArrow.headingSubscription su = true <->
   GPSDirectionalArrow.locationSubscription su = true /\
   exists value,
     GPSDirectionalArrow.watchHeadingAsync pf
     = GPSDirectionalArrow.Resolved value).
Proof.
  cbv zeta.
  destruct (initialize_cases pf)
    as [[m [sh E]] | [[m [_ E]] | [[[v Hv] E] | [[[m Hm] [Ha E]]
                                                | [[m Hm] [Ha E]]]]]];
    rewrite E; simpl.
  - split; [ | split]; [split | | split]; intros H; try discriminate;
      destruct H as [H _]; discriminate.
  - split; [ | split]; [split | | split]; intros H; try discriminate;
      destruct H as [H _]; discriminate.
  - split; [ | split]; [split | | split]; intros H; try discriminate.
    + destruct H as [_ [[m Hm] _]]. congruence.
    + split; [reflexivity | exists v; exact Hv].
    + reflexivity.
  - split; [ | split]; [split | | split]; intros H; try discriminate.
    + split; [reflexivity | split; [exists m; exact Hm | exact Ha]].
    + reflexivity.
    + reflexivity.
    + destruct H as [_ [v Hv]]. congruence.
  - split; [ | split]; [split | | split]; intros H; try discriminate.
    + destruct H as [_ [_ Hav]]. contradiction.
    + destruct H as [_ [v Hv]]. congruence.
Qed.

Lemma fallback_exactly_when_heading_refused_witness :
  GPSDirectionalArrow.magnetometerInterval
    (GPSDirectionalArrow.initialize
       (GPSDirectionalArrow.mkPlatform
          (GPSDirectionalArrow.Resolved true)
          (GPSDirectionalArrow.Resolved "granted"%string)
          (GPSDirectionalArrow.Rejected "denied"%string)
          (GPSDirectionalArrow.Resolved tt)
          (GPSDirectionalArrow.Rejected "no heading"%string)
          (GPSDirectionalArrow.Resolved true))) = Some 200%Z.
Proof.
  apply (proj1 (proj2 (fallback_exactly_when_heading_refused
                         (GPSDirectionalArrow.mkPlatform
                            (GPSDirectionalArrow.Resolved true)
                            (GPSDirectionalArrow.Resolved "granted"%string)
                            (GPSDirectionalArrow.Rejected "denied"%string)
                            (GPSDirectionalArrow.Resolved tt)
                            (GPSDirectionalArrow.Rejected "no heading"%string)
                            (GPSDirectionalArrow.Resolved true))))).
  reflexivity.
Defined.

(** X21: when the start-up sequence ends with an error whose message is
    not empty, the component shows the error screen, not the loading
    screen; a failure to start location tracking always does, whatever the
    message of the platform. *)
Theorem failed_startup_shows_error_screen
  (pf : GPSDirectionalArrow.Platform) :
  let su := GPSDirectionalArrow.initialize pf in
  (forall message,
     GPSDirectionalArrow.error su = Some message ->
     message <> EmptyString ->
     GPSDirectionalArrow.render
       (negb (GPSDirectionalArrow.loadingCleared su))
       (GPSDirectionalArrow.error su)
     = GPSDirectionalArrow.ErrorScreen) /\
  (forall message,
     GPSDirectionalArrow.error su
     = Some ("Failed to start location tracking: " ++ message)%string ->
     GPSDirectionalArrow.render
       (negb (GPSDirectionalArrow.loadingCleared su))
       (GPSDirectionalArrow.error su)
     = GPSDirectionalArrow.ErrorScreen).
Proof.
  cbv zeta.
  assert (forall message,
            GPSDirectionalArrow.error (GPSDirectionalArrow.initialize pf)
            = Some message ->
            message <> EmptyString ->
            GPSDirectionalArrow.render
              (negb (GPSDirectionalArrow.loadingCleared
                       (GPSDirectionalArrow.initialize pf)))
              (GPSDirectionalArrow.error (GPSDirectionalArrow.initialize pf))
            = GPSDirectionalArrow.ErrorScreen) as Hgen.
  { intros message Herr Hne.
    destruct (initialize_cases pf)
      as [[m [sh E]] | [[m [_ E]] | [[_ E] | [[_ [_ E]] | [_ [_ E]]]]]];
      rewrite E in *; simpl in *; try discriminate;
      injection Herr as Hm; subst message;
      unfold GPSDirectionalArrow.render;
      [ destruct (String.eqb_spec m ""); congruence | reflexivity ]. }
  split; [exact Hgen | ].
  intros message Herr. apply (Hgen _ Herr). discriminate.
Qed.

Lemma failed_startup_shows_error_screen_witness :
  GPSDirectionalArrow.render
    (negb (GPSDirectionalArrow.loadingCleared
             (GPSDirectionalArrow.initialize
                (GPSDirectionalArrow.mkPlatform
                   (GPSDirectionalArrow.Resolved true)
                   (GPSDirectionalArrow.Resolved "denied"%string)
                   (GPSDirectionalArrow.Resolved tt)
                   (GPSDirectionalArrow.Resolved tt)
                   (GPSDirectionalArrow.Resolved tt)
                   (GPSDirectionalArrow.Resolved true)))))
    (GPSDirectionalArrow.error
       (GPSDirectionalArrow.initialize
          (GPSDirectionalArrow.mkPlatform
             (GPSDirectionalArrow.Resolved true)
             (GPSDirectionalArrow.Resolved "denied"%string)
             (GPSDirectionalArrow.Resolved tt)
             (GPSDirectionalArrow.Resolved tt)
             (GPSDirectionalArrow.Resolved tt)
             (GPSDirectionalArrow.Resolved true))))
  = GPSDirectionalArrow.ErrorScreen.
Proof.
  apply (proj1 (failed_startup_shows_error_screen
                  (GPSDirectionalArrow.mkPlatform
                     (GPSDirectionalArrow.Resolved true)
                     (GPSDirectionalArrow.Resolved "denied"%string)
                     (GPSDirectionalArrow.Resolved tt)
                     (GPSDirectionalArrow.Resolved tt)
                     (GPSDirectionalArrow.Resolved tt)
                     (GPSDirectionalArrow.Resolved true)))
           "Location permission denied"%string).
  - reflexivity.
  - discriminate.
Defined.

Lemma arrow_rotation_within_input_range_witness :
  -180 <= shortestDelta
            (GPSDirectionalArrow.calculatedBearing
               (GPSDirectionalArrow.mkCoords 0 0)
               GPSDirectionalArrow.targetLocation)
            (GPSDirectionalArrow.headingValue
               (GPSDirectionalArrow.mkHeading (-1) 87)) <= 180.
Proof.
  apply (arrow_rotation_within_input_range
           [GPSDirectionalArrow.LocationUpdate (GPSDirectionalArrow.mkCoords 0 0);
            GPSDirectionalArrow.HeadingUpdate
              (GPSDirectionalArrow.mkHeading (-1) 87)]).
  - intros h [H | [H | []]]; [discriminate | ].
    injection H as <-. simpl. lra.
  - reflexivity.
Defined.

(** ** What the screens print *)

Section Display.

Import GPSDirectionalArrow.

Lemma round_spec (x : R) (z : Z) :
  IZR z <= x + 1 / 2 < IZR z + 1 -> JS.round x = z.
Proof.
  intros H. unfold JS.round. symmetry. apply Int_part_spec. lra.
Qed.

Lemma round_bounds (x : R) : x - 1 / 2 < IZR (JS.round x) <= x + 1 / 2.
Proof.
  unfold JS.round.
  destruct (base_Int_part (x + 1 / 2)) as [Hle Hgt]. lra.
Qed.

(** A value of [0, 360) is printed as an integer of 0..360, and as 360
    exactly from 359.5 on. *)
Lemma round_of_heading (h : R) :
  0 <= h < 360 ->
  (0 <= JS.round h <= 360)%Z /\ (JS.round h = 360%Z <-> 359.5 <= h).
Proof.
  intros Hh. pose proof (round_bounds h) as [Hlo Hhi].
  assert (0 <= JS.round h)%Z as H0.
  { assert (IZR (-1) < IZR (JS.round h)) as Hlt by (simpl; lra).
    apply lt_IZR in Hlt. lia. }
  assert (JS.round h <= 360)%Z as H360.
  { assert (IZR (JS.round h) < IZR 361) as Hlt by (simpl; lra).
    apply lt_IZR in Hlt. lia. }
  split; [split; assumption | ].
  split.
  - intros E. rewrite E in Hhi. simpl in Hhi. lra.
  - intros Hge. apply round_spec. simpl. lra.
Qed.

Lemma string_append_assoc (a b c : string) :
  ((a ++ b) ++ c)%string = (a ++ (b ++ c))%string.
Proof.
  induction a as [ | ch a IH]; simpl; [reflexivity | rewrite IH; reflexivity].
Qed.

End Display.

(** X22: the angles the two screens print with [Math.round] are integers
    between 0 and 360, both ends included: the raw and the compensated
    heading of the compass screen and the bearing of the waypoint screen.
    The bearing is printed as 360 exactly when it is 359.5 or more. *)
Theorem printed_angles_between_0_and_360
  (cevs : list TransponderCompass.Event)
  (wevs : list GPSDirectionalArrow.Event) :
  let cst := TransponderCompass.run TransponderCompass.initial cevs in
  let wst := GPSDirectionalArrow.run GPSDirectionalArrow.initial wevs in
  (0 <= JS.round (TransponderCompass.heading cst) <= 360)%Z /\
  (0 <= JS.round (TransponderCompass.compensatedHeading
                    (TransponderCompass.accelerometerData cst)
                    (TransponderCompass.magnetometerData cst)) <= 360)%Z /\
  (0 <= JS.round (GPSDirectionalArrow.stBearing wst) <= 360)%Z /\
  (JS.round (GPSDirectionalArrow.stBearing wst) = 360%Z
   <-> 359.5 <= GPSDirectionalArrow.stBearing wst).
Proof.
  cbv zeta.
  assert (0 <= TransponderCompass.heading
                 (TransponderCompass.run TransponderCompass.initial cevs)
          < 360) as Hraw.
  { induction cevs as [ | ev evs IH] using rev_ind.
    - simpl. lra.
    - rewrite run_snoc. destruct ev as [data | data | b]; simpl;
        [apply magneticAngle_range | exact IH | exact IH]. }
  assert (forall acc mag,
            0 <= TransponderCompass.compensatedHeading acc mag < 360) as Hcomp.
  { intros acc mag. unfold TransponderCompass.compensatedHeading.
    pose proof (atan2_degrees_bound (- TransponderCompass.magX acc mag)
                  (TransponderCompass.magY acc mag)).
    apply normalize360_one_turn. lra. }
  pose proof (run_bearing_range wevs) as Hb.
  split; [apply round_of_heading; exact Hraw | ].
  split; [apply round_of_heading; apply Hcomp | ].
  split; apply round_of_heading; exact Hb.
Qed.

(** X23: a distance from 999.5 m up to, but not including, 1000 m is
    printed by the metre branch as [1000m]. *)
Theorem formatDistance_just_below_1000 (d : R) :
  999.5 <= d < 1000 ->
  GPSDirectionalArrow.formatDistance (Some d) = "1000m"%string.
Proof.
  intros Hd. unfold GPSDirectionalArrow.formatDistance.
  destruct (Rlt_dec d 1000); [ | lra].
  rewrite (round_spec d 1000) by (simpl; lra).
  reflexivity.
Qed.

Lemma formatDistance_just_below_1000_witness :
  GPSDirectionalArrow.formatDistance (Some 999.7) = "1000m"%string.
Proof.
  apply (formatDistance_just_below_1000 999.7). lra.
Defined.

(** X24: a distance above 9950 m and below 10000 m is printed by the
    one-decimal branch as [10.0km]. *)
Theorem formatDistance_just_below_10000 (d : R) :
  9950 < d < 10000 ->
  GPSDirectionalArrow.formatDistance (Some d) = "10.0km"%string.
Proof.
  intros Hd. unfold GPSDirectionalArrow.formatDistance.
  destruct (Rlt_dec d 1000); [lra | ].
  destruct (Rlt_dec d 10000); [ | lra].
  unfold JS.toFixed; cbv zeta.
  destruct (Rlt_dec (d / 1000) 0); [lra | ].
  replace (Int_part (Rabs (d / 1000) * 10 ^ 1 + 1 / 2)) with 100%Z.
  - reflexivity.
  - apply Int_part_spec. rewrite Rabs_pos_eq by lra. simpl. lra.
Qed.

Lemma formatDistance_just_below_10000_witness :
  GPSDirectionalArrow.formatDistance (Some 9960) = "10.0km"%string.
Proof.
  apply (formatDistance_just_below_10000 9960). lra.
Defined.

(** X25: a coordinate and its opposite are printed with the same digits;
    only the letter differs: N and S for a latitude, E and W for a
    longitude. *)
Theorem formatCoordinate_hemispheres (coord : R) :
  0 < coord ->
  exists digits : string,
    GPSDirectionalArrow.formatCoordinate coord false
    = (digits ++ "N")%string /\
    GPSDirectionalArrow.formatCoordinate (- coord) false
    = (digits ++ "S")%string /\
    GPSDirectionalArrow.formatCoordinate coord true
    = (digits ++ "E")%string /\
    GPSDirectionalArrow.formatCoordinate (- coord) true
    = (digits ++ "W")%string.
Proof.
  intros Hc.
  exists (JS.toFixed (Rabs coord) 4 ++ "°")%string.
  unfold GPSDirectionalArrow.formatCoordinate; cbv zeta.
  rewrite Rabs_Ropp.
  destruct (Rle_dec 0 coord); [ | lra].
  destruct (Rle_dec 0 (- coord)); [lra | ].
  rewrite !string_append_assoc.
  repeat split.
Qed.

Lemma formatCoordinate_hemispheres_witness :
  exists digits : string,
    GPSDirectionalArrow.formatCoordinate 37.7749 false
    = (digits ++ "N")%string /\
    GPSDirectionalArrow.formatCoordinate (- (37.7749)) false
    = (digits ++ "S")%string /\
    GPSDirectionalArrow.formatCoordinate 37.7749 true
    = (digits ++ "E")%string /\
    GPSDirectionalArrow.formatCoordinate (- (37.7749)) true
    = (digits ++ "W")%string.
Proof.
  apply (formatCoordinate_hemispheres 37.7749). lra.
Defined.

(** X26: a coordinate closer to zero than 0.00005 is printed with the
    digits [0.0000]; the letter still tells its sign, N or E from zero
    on, S or W below. *)
Theorem formatCoordinate_near_zero (coord : R) :
  -0.00005 < coord < 0.00005 ->
  (0 <= coord ->
   GPSDirectionalArrow.formatCoordinate coord false = "0.0000°N"%string /\
   GPSDirectionalArrow.formatCoordinate coord true = "0.0000°E"%string) /\
  (coord < 0 ->
   GPSDirectionalArrow.formatCoordinate coord false = "0.0000°S"%string /\
   GPSDirectionalArrow.formatCoordinate coord true = "0.0000°W"%string).
Proof.
  intros Hc.
  assert (Rabs coord < 0.00005) as Habs by (apply Rabs_def1; lra).
  pose proof (Rabs_pos coord) as Hpos.
  assert (JS.toFixed (Rabs coord) 4 = "0.0000"%string) as Hdigits.
  { unfold JS.toFixed; cbv zeta.
    destruct (Rlt_dec (Rabs coord) 0); [lra | ].
    replace (Int_part (Rabs (Rabs coord) * 10 ^ 4 + 1 / 2)) with 0%Z.
    - reflexivity.
    - apply Int_part_spec. rewrite Rabs_Rabsolu. simpl. lra. }
  unfold GPSDirectionalArrow.formatCoordinate; cbv zeta.
  rewrite Hdigits.
  split; intros Hs.
  - destruct (Rle_dec 0 coord); [ | lra]. split; reflexivity.
  - destruct (Rle_dec 0 coord); [lra | ]. split; reflexivity.
Qed.

Lemma formatCoordinate_near_zero_witness :
  GPSDirectionalArrow.formatCoordinate (-0.00001) false = "0.0000°S"%string /\
  GPSDirectionalArrow.formatCoordinate (-0.00001) true = "0.0000°W"%string.
Proof.
  apply (proj2 (formatCoordinate_near_zero (-0.00001) ltac:(lra))). lra.
Defined.
